(** * NIHARA: the live voice session of [src/App.tsx]

    A shallow embedding of the audio codec helpers ([encode], [decode],
    [decodeAudioData], [createBlobFromAudio]), of the [onmessage] handler of
    the live session (interruption, tool calls, transcripts, playback
    scheduling) and of [processAiInteraction] (bond level, mood, memories),
    with the properties of the specification stated over them.

    Conventions.
    - A JavaScript number that holds a sample or a time is an exact rational
      ([Q]).  Every operation of the codec is exact on the values it meets
      (a scaling by [2^15], a truncation, a division of a 16-bit integer by
      [2^15]), so nothing is lost for the codec; for the clock this abstracts
      from the rounding of sums.  [NaN] appears only where the code reads
      past the end of a typed array and is kept as a value of its own.
    - A [Uint8Array] is a [list byte]; the binary string handed to [btoa]
      and returned by [atob] is a [string].
    - A thrown exception is the [Throw] case of [result]. *)

From Stdlib Require Import ZArith NArith QArith Qround Qabs Qminmax Lqa Lia.
From Stdlib Require Import List Bool Ascii String.
From Stdlib.Strings Require Import Byte.
From Stdlib Require Import DecimalString DecimalPos DecimalZ.
Import ListNotations.

Local Open Scope string_scope.
Local Open Scope list_scope.
Local Open Scope Z_scope.

(** ** Exceptions *)

Inductive exn : Set :=
| RangeError            (* typed array view over a buffer of the wrong size *)
| NotSupportedError     (* [createBuffer] with an argument out of range *)
| InvalidCharacterError (* [atob] on a string that is not base64 *)
| TypeError             (* a property read from [undefined] *).

Inductive result (A : Type) : Type :=
| Ok (a : A)
| Throw (e : exn).
Arguments Ok {A} a.
Arguments Throw {A} e.

Definition bind {A B : Type} (r : result A) (k : A -> result B) : result B :=
  match r with
  | Ok a => k a
  | Throw e => Throw e
  end.

Notation "'let*' x ':=' r 'in' k" := (bind r (fun x => k))
  (at level 10, x name, r at level 100, k at level 200).

(** ** The platform's base64: [btoa] and [atob]

    [btoa] is RFC 4648 base64 with padding; [atob] is the forgiving-base64
    decode of the HTML standard: ASCII whitespace is removed, one or two
    trailing [=] are removed when the length is a multiple of four, a length
    of [1] modulo [4] or a character outside the alphabet is an error, and
    the bits left over in the last group are dropped. *)

Module Base64.

Definition alphabet : string :=
  "ABCDEFGHIJKLMNOPQRSTUVWXYZabcdefghijklmnopqrstuvwxyz0123456789+/".

Definition pad : ascii := "="%char.

(** The character of a 6-bit value. *)
Definition sextet_char (n : N) : ascii :=
  match String.get (N.to_nat n) alphabet with
  | Some c => c
  | None => pad
  end.

(** The 6-bit value of a character of the alphabet. *)
Definition char_sextet (c : ascii) : option N :=
  let n := N_of_ascii c in
  if ((65 <=? n) && (n <=? 90))%N then Some (n - 65)%N
  else if ((97 <=? n) && (n <=? 122))%N then Some (n - 71)%N
  else if ((48 <=? n) && (n <=? 57))%N then Some (n + 4)%N
  else if (n =? 43)%N then Some 62%N
  else if (n =? 47)%N then Some 63%N
  else None.

(** Three bytes make four sextets. *)
Definition s1 (a : N) : N := (a / 4)%N.
Definition s2 (a b : N) : N := ((a mod 4) * 16 + b / 16)%N.
Definition s3 (b c : N) : N := ((b mod 16) * 4 + c / 64)%N.
Definition s4 (c : N) : N := (c mod 64)%N.

Fixpoint btoa (s : string) : string :=
  match s with
  | EmptyString => EmptyString
  | String a EmptyString =>
      let a := N_of_ascii a in
      String (sextet_char (s1 a)) (String (sextet_char (s2 a 0))
        (String pad (String pad EmptyString)))
  | String a (String b EmptyString) =>
      let a := N_of_ascii a in
      let b := N_of_ascii b in
      String (sextet_char (s1 a)) (String (sextet_char (s2 a b))
        (String (sextet_char (s3 b 0)) (String pad EmptyString)))
  | String a (String b (String c rest)) =>
      let a := N_of_ascii a in
      let b := N_of_ascii b in
      let c := N_of_ascii c in
      String (sextet_char (s1 a)) (String (sextet_char (s2 a b))
        (String (sextet_char (s3 b c)) (String (sextet_char (s4 c))
          (btoa rest))))
  end.

Definition is_whitespace (c : ascii) : bool :=
  let n := N_of_ascii c in
  ((n =? 9) || (n =? 10) || (n =? 12) || (n =? 13) || (n =? 32))%N.

Definition strip_whitespace (l : list ascii) : list ascii :=
  filter (fun c => negb (is_whitespace c)) l.

(** Removes one or two trailing [=] of a list whose length is a multiple
    of four.  The list is given reversed. *)
Definition strip_padding_rev (r : list ascii) : list ascii :=
  if (Nat.modulo (List.length r) 4 =? 0)%nat then
    match r with
    | p :: q :: r' =>
        if Ascii.eqb p pad
        then if Ascii.eqb q pad then r' else q :: r'
        else r
    | _ => r
    end
  else r.

Fixpoint sextets (l : list ascii) : option (list N) :=
  match l with
  | [] => Some []
  | c :: l' =>
      match char_sextet c, sextets l' with
      | Some n, Some ns => Some (n :: ns)
      | _, _ => None
      end
  end.

(** Four sextets make three bytes; a last group of two gives one byte and
    of three gives two. *)
Definition b1 (p q : N) : N := (p * 4 + q / 16)%N.
Definition b2 (q r : N) : N := ((q mod 16) * 16 + r / 4)%N.
Definition b3 (r s : N) : N := ((r mod 4) * 64 + s)%N.

Fixpoint bytes_of_sextets (l : list N) : string :=
  match l with
  | p :: q :: r :: s :: rest =>
      String (ascii_of_N (b1 p q)) (String (ascii_of_N (b2 q r))
        (String (ascii_of_N (b3 r s)) (bytes_of_sextets rest)))
  | [p; q; r] =>
      String (ascii_of_N (b1 p q)) (String (ascii_of_N (b2 q r)) EmptyString)
  | [p; q] => String (ascii_of_N (b1 p q)) EmptyString
  | _ => EmptyString
  end.

(** The sextets and the padding of [btoa s], for the proofs. *)
Fixpoint body (s : string) : list N :=
  match s with
  | EmptyString => []
  | String a EmptyString =>
      let a := N_of_ascii a in [s1 a; s2 a 0]
  | String a (String b EmptyString) =>
      let a := N_of_ascii a in
      let b := N_of_ascii b in [s1 a; s2 a b; s3 b 0]
  | String a (String b (String c rest)) =>
      let a := N_of_ascii a in
      let b := N_of_ascii b in
      let c := N_of_ascii c in
      s1 a :: s2 a b :: s3 b c :: s4 c :: body rest
  end.

Fixpoint padding (s : string) : list ascii :=
  match s with
  | EmptyString => []
  | String _ EmptyString => [pad; pad]
  | String _ (String _ EmptyString) => [pad]
  | String _ (String _ (String _ rest)) => padding rest
  end.

Definition atob (s : string) : option string :=
  let l := strip_whitespace (list_ascii_of_string s) in
  let l := rev (strip_padding_rev (rev l)) in
  if (Nat.modulo (List.length l) 4 =? 1)%nat then None
  else option_map bytes_of_sextets (sextets l).

End Base64.

(** ** Typed arrays *)

(** A [Float32Array] element: a finite value or [NaN]. *)
Inductive number : Set :=
| Num (q : Q)
| NaN.

(** [a[i] = v] on a typed array: a write past the end is ignored. *)
Fixpoint array_set {A : Type} (a : list A) (i : nat) (v : A) : list A :=
  match a, i with
  | [], _ => []
  | _ :: a', O => v :: a'
  | x :: a', S i' => x :: array_set a' i' v
  end.

(** Truncation towards zero (the integer part of [ToNumber]). *)
Definition Qtrunc (x : Q) : Z := Z.quot (Qnum x) (Zpos (Qden x)).

(** The conversion applied by a store into an [Int16Array]: the integer
    part, modulo [2^16], read as a signed 16-bit value. *)
Definition ToInt16 (x : Q) : Z :=
  let int16bit := Qtrunc x mod 65536 in
  if 32768 <=? int16bit then int16bit - 65536 else int16bit.

(** [new Uint8Array(int16.buffer)]: the two bytes of every element, low byte
    first. *)
Definition byte_of_Z (z : Z) : byte :=
  match Byte.of_N (Z.to_N (z mod 256)) with
  | Some b => b
  | None => x00
  end.

Definition Z_of_byte (b : byte) : Z := Z.of_N (Byte.to_N b).

Definition int16_bytes (z : Z) : list byte :=
  let u := z mod 65536 in
  [byte_of_Z (u mod 256); byte_of_Z (u / 256)].

Definition Uint8Array_of_Int16Array (a : list Z) : list byte :=
  flat_map int16_bytes a.

(** The signed 16-bit value of two bytes, low byte first. *)
Definition int16_of_bytes (lo hi : byte) : Z :=
  let u := Z_of_byte lo + 256 * Z_of_byte hi in
  if 32768 <=? u then u - 65536 else u.

Fixpoint int16_pairs (buffer : list byte) : list Z :=
  match buffer with
  | lo :: hi :: rest => int16_of_bytes lo hi :: int16_pairs rest
  | _ => []
  end.

(** [new Int16Array(buffer)]: a [RangeError] when the byte length of the
    buffer is not a multiple of two. *)
Definition Int16Array_of_buffer (buffer : list byte) : result (list Z) :=
  if Nat.even (List.length buffer) then Ok (int16_pairs buffer)
  else Throw RangeError.

(** ** Audio buffers *)

Record AudioBuffer : Type := mkAudioBuffer {
  numberOfChannels : nat;
  length : nat;                      (* in sample frames *)
  sampleRate : Q;
  channelData : list (list number)   (* [getChannelData(c)], one per channel *)
}.

Definition duration (b : AudioBuffer) : Q :=
  (inject_Z (Z.of_nat (length b)) / sampleRate b)%Q.

(** [ctx.createBuffer(numberOfChannels, length, sampleRate)].  The length is
    an [unsigned long]: the argument is converted by taking its integer part
    modulo [2^32].  A channel count outside [1..32], a length of zero or a
    rate outside [8000..96000] is a [NotSupportedError]; these are the ranges
    every implementation supports. *)
Definition createBuffer (numChannels : nat) (frameCount : Q) (rate : Q)
  : result AudioBuffer :=
  let len := Z.to_nat (Qtrunc frameCount mod 4294967296) in
  if ((1 <=? numChannels) && (numChannels <=? 32))%nat
     && negb (len =? 0)%nat
     && Qle_bool 8000%Q rate && Qle_bool rate 96000%Q
  then Ok (mkAudioBuffer numChannels len rate
             (repeat (repeat (Num 0%Q) len) numChannels))
  else Throw NotSupportedError.

(** ** The codec of [src/App.tsx] *)

(** [encode]: the bytes as a binary string, through [btoa]. *)
Definition encode (bytes : list byte) : string :=
  Base64.btoa (string_of_list_ascii (map ascii_of_byte bytes)).

(** [decode]: [atob], then the character codes as bytes. *)
Definition decode (base64 : string) : result (list byte) :=
  match Base64.atob base64 with
  | Some binaryString =>
      Ok (map byte_of_ascii (list_ascii_of_string binaryString))
  | None => Throw InvalidCharacterError
  end.

(** The value stored by [channelData[i] = dataInt16[k] / 32768.0]: reading
    past the end of [dataInt16] gives [undefined], and the quotient is
    [NaN]. *)
Definition sample_at (dataInt16 : list Z) (k : nat) : number :=
  match nth_error dataInt16 k with
  | Some z => Num (inject_Z z / 32768)%Q
  | None => NaN
  end.

(** The number of iterations of [for (let i = 0; i < bound; i++)]. *)
Definition iterations (bound : Q) : nat := Z.to_nat (Qceiling bound).

(** The inner loop of [decodeAudioData] for one channel. *)
Definition fillChannel (dataInt16 : list Z) (numChannels : nat)
  (frameCount : Q) (channel : nat) (data : list number) : list number :=
  fold_left
    (fun data i => array_set data i (sample_at dataInt16 (i * numChannels + channel)))
    (seq 0 (iterations frameCount)) data.

(** [decodeAudioData(data, ctx, sampleRate, numChannels)].  [data] is the
    array returned by [decode], whose buffer is exactly its bytes. *)
Definition decodeAudioData (data : list byte) (rate : Q) (numChannels : nat)
  : result AudioBuffer :=
  let* dataInt16 := Int16Array_of_buffer data in
  let frameCount :=
    (inject_Z (Z.of_nat (List.length dataInt16)) / inject_Z (Z.of_nat numChannels))%Q in
  let* buffer := createBuffer numChannels frameCount rate in
  Ok (mkAudioBuffer (numberOfChannels buffer) (length buffer) (sampleRate buffer)
        (fold_left
           (fun chans channel =>
              match nth_error chans channel with
              | Some data =>
                  array_set chans channel
                    (fillChannel dataInt16 numChannels frameCount channel data)
              | None => chans
              end)
           (seq 0 numChannels) (channelData buffer))).

Record Blob : Type := mkBlob {
  data : string;
  mimeType : string
}.

(** [createBlobFromAudio]: every sample times [32768], stored into an
    [Int16Array]. *)
Definition createBlobFromAudio (samples : list Q) : Blob :=
  let int16 := map (fun x => ToInt16 (x * 32768)%Q) samples in
  mkBlob (encode (Uint8Array_of_Int16Array int16)) "audio/pcm;rate=16000".

(** What the receiving side makes of an encoded chunk, as [onmessage] does
    with an inbound one: [decodeAudioData(decode(data), ctx, rate, 1)]. *)
Definition decodeInboundChunk (base64 : string) (rate : Q) (numChannels : nat)
  : result AudioBuffer :=
  let* bytes := decode base64 in
  decodeAudioData bytes rate numChannels.

(** ** [processAiInteraction]: bond level, mood and memories *)

(** The state the function updates, and the mood derived from the bond
    level by the effect that follows every change of it. *)
Record Companion : Type := mkCompanion {
  bondLevel : Z;
  memories : list string
}.

(** [array.slice(-n)]: the last [n] elements, the whole array when it is
    shorter. *)
Definition slice_last {A : Type} (n : nat) (l : list A) : list A :=
  skipn (List.length l - n) l.

(** [analyzeSentiment] and [extractMemory] are remote calls; their answers
    are the arguments here.  A memory that is [null] or empty is falsy. *)
Definition processAiInteraction (sentiment : string) (memory : option string)
  (c : Companion) : Companion :=
  let b := bondLevel c in
  let b := if String.eqb sentiment "positive" then b + 1 else b in
  let b := if String.eqb sentiment "negative" then Z.max 0 (b - 1) else b in
  let m := memories c in
  let m :=
    match memory with
    | Some text =>
        if String.eqb text "" then m else slice_last 20 (m ++ [text])
    | None => m
    end in
  mkCompanion b m.

(** The effect "Derive mood from bondLevel". *)
Definition deriveMood (bondLevel : Z) : string :=
  if 5 <? bondLevel then "Joyful"
  else if 0 <? bondLevel then "Content"
  else if bondLevel <? -5 then "Concerned"
  else if bondLevel <? 0 then "Pensive"
  else "Neutral".

Definition mood (c : Companion) : string := deriveMood (bondLevel c).

(** A conversation: the answers of the two remote calls, interaction after
    interaction. *)
Definition interactions (l : list (string * option string)) (c : Companion)
  : Companion :=
  fold_left (fun c a => processAiInteraction (fst a) (snd a) c) l c.

(** ** The live session

    The state of the component that the [onmessage] handler of
    [handleToggleLiveMode] reads and writes, and the handler itself.

    - The session is open: [liveSessionPromiseRef.current] has resolved and
      [outputAudioContextRef.current] is set, as they are once
      [handleToggleLiveMode] has run.
    - A handler runs to its end before the next callback: its two [await]s
      wait for values that are already there.
    - A state setter called with a value takes effect as the last value set.
      The one setter called with a function, [setLiveTranscript] on
      turn-complete, is modelled with React's queue (see
      [TranscriptUpdate]).
    - A buffer source is a number, its rank among the sources created. *)

(** The enumerations of [types.ts], which is not part of the sources at
    hand: the tables [Object.values(Personality)] and
    [Object.values(AppMode)] and the members the code names. *)
Class Types : Type := {
  Personality_values : list string;
  AppMode_values : list string;
  Personality_Nihara : string;
  AppMode_Chat : string;
  AppMode_AIDiary : string
}.

Definition includes (values : list string) (v : option string) : bool :=
  match v with
  | Some x => existsb (String.eqb x) values
  | None => false
  end.

(** The [enum] of [changeModeDeclaration]:
    [Object.values(AppMode).filter(m => m !== AppMode.AIDiary)]. *)
Definition changeMode_enum `{Types} : list string :=
  filter (fun m => negb (String.eqb m AppMode_AIDiary)) AppMode_values.

(** The [enum] of [changePersonalityDeclaration]. *)
Definition changePersonality_enum `{Types} : list string := Personality_values.

(** *** Messages *)

(** A function call that carries its [args]. *)
Record FunctionCall : Type := mkFunctionCall {
  fc_id : string;
  fc_name : string;
  fc_args : list (string * string)
}.

(** [fc.args.key]: [undefined] when the key is absent. *)
Fixpoint arg (args : list (string * string)) (key : string) : option string :=
  match args with
  | [] => None
  | (k, v) :: rest => if String.eqb k key then Some v else arg rest key
  end.

Record FunctionResponse : Type := mkFunctionResponse {
  fr_id : string;
  fr_name : string;
  fr_result : string
}.

Record LiveServerMessage : Type := mkMessage {
  interrupted : bool;                    (* serverContent?.interrupted *)
  toolCall : option (list FunctionCall); (* toolCall.functionCalls *)
  outputTranscription : option string;   (* serverContent?.outputTranscription?.text *)
  inputTranscription : option string;    (* serverContent?.inputTranscription?.text *)
  turnComplete : bool;                   (* serverContent?.turnComplete *)
  audioData : option string              (* serverContent?.modelTurn?.parts[0]?.inlineData?.data *)
}.

(** A string or [undefined] used as a condition: the empty string is falsy. *)
Definition truthy (v : option string) : option string :=
  match v with
  | Some x => if String.eqb x "" then None else Some x
  | None => None
  end.

(** *** State *)

Inductive LiveStatus : Set := listening | speaking | thinking | idle.

Record Transcript : Type := mkTranscript {
  user : string;
  assistant : string
}.

(** An update of the [liveTranscript] state that React has not applied yet.
    [setLiveTranscript({...ref.current})] hands over a copy made at the call.
    [setLiveTranscript(prev => ({...prev, user: ref.current.user,
    assistant: ref.current.assistant}))] hands over a function: React runs it
    at the call when the component has no update pending (the state it
    computes is then kept with the update), and otherwise at the next
    render, and the function reads [liveTranscriptRef.current] when it
    runs. *)
Inductive TranscriptUpdate : Type :=
| SetValue (t : Transcript)
| SetFromRef.

(** The tool-call side: personality, mode, the action banner, and what was
    sent back to the session. *)
Record Settings : Type := mkSettings {
  currentPersonality : string;
  currentMode : string;
  liveActionStatus : option string;
  bannerTimers : nat;                    (* [setTimeout]s that clear the banner *)
  toolResponses : list FunctionResponse  (* [session.sendToolResponse], oldest first *)
}.

Record Captions : Type := mkCaptions {
  liveTranscript : Transcript;              (* the state the view renders *)
  pendingTranscript : list TranscriptUpdate;(* updates not rendered yet *)
  liveTranscriptRef : Transcript            (* [liveTranscriptRef.current] *)
}.

(** One [source.start(when)] with the duration of the buffer played. *)
Record Playing : Type := mkPlaying {
  source : nat;
  startAt : Q;
  playFor : Q
}.

Record Playback : Type := mkPlayback {
  liveStatus : LiveStatus;
  audioSources : list nat;   (* [audioSourcesRef.current], in insertion order *)
  nextStartTime : Q;         (* [nextStartTimeRef.current] *)
  started : list Playing;    (* every [source.start], oldest first *)
  stopped : list nat;        (* every [source.stop()], oldest first *)
  ended : list nat           (* sources whose [ended] listener has run *)
}.

Record Live : Type := mkLive {
  isLive : bool;
  settings : Settings;
  captions : Captions;
  playback : Playback
}.

Definition setLiveStatus (v : LiveStatus) (p : Playback) : Playback :=
  mkPlayback v (audioSources p) (nextStartTime p) (started p) (stopped p) (ended p).

(** The state of a freshly mounted component. *)
Definition initial `{Types} : Live :=
  mkLive false
    (mkSettings Personality_Nihara AppMode_Chat None 0 [])
    (mkCaptions (mkTranscript "" "") [] (mkTranscript "" ""))
    (mkPlayback idle [] 0%Q [] [] []).

(** *** [handleToggleLiveMode]

    What it does to the state; the capture graph and the call that connects
    the session are outside the model. *)

Definition handleToggleLiveMode (s : Live) : Live :=
  if isLive s
  then mkLive false (settings s) (captions s) (setLiveStatus idle (playback s))
  else mkLive true (settings s) (captions s) (setLiveStatus listening (playback s)).

(** *** [onmessage], block by block *)

(** [if (message.serverContent?.interrupted) { ... }] *)
Definition onInterrupted (p : Playback) : Playback :=
  mkPlayback listening [] 0%Q (started p)
    (stopped p ++ audioSources p) (ended p).

Definition setCurrentPersonality (v : string) (s : Settings) : Settings :=
  mkSettings v (currentMode s) (liveActionStatus s) (bannerTimers s) (toolResponses s).

Definition setCurrentMode (v : string) (s : Settings) : Settings :=
  mkSettings (currentPersonality s) v (liveActionStatus s) (bannerTimers s)
    (toolResponses s).

(** [setLiveActionStatus(actionMessage)] with the [setTimeout] that clears
    the banner three seconds later. *)
Definition showAction (actionMessage : string) (s : Settings) : Settings :=
  mkSettings (currentPersonality s) (currentMode s) (Some actionMessage)
    (S (bannerTimers s)) (toolResponses s).

Definition sendToolResponse (r : FunctionResponse) (s : Settings) : Settings :=
  mkSettings (currentPersonality s) (currentMode s) (liveActionStatus s)
    (bannerTimers s) (toolResponses s ++ [r]).

(** One iteration of [for (const fc of message.toolCall.functionCalls)]. *)
Definition dispatch `{Types} (fc : FunctionCall) (s : Settings) : Settings :=
  let result := "ok" in
  let '(s, actionMessage) :=
    if String.eqb (fc_name fc) "changePersonality" then
      match arg (fc_args fc) "personality" with
      | Some newP =>
          if includes Personality_values (Some newP)
          then (setCurrentPersonality newP s,
                ("Personality set to " ++ newP ++ ".")%string)
          else (s, "")
      | None => (s, "")
      end
    else if String.eqb (fc_name fc) "changeMode" then
      match arg (fc_args fc) "mode" with
      | Some newM =>
          if includes AppMode_values (Some newM)
          then (setCurrentMode newM s, ("Mode changed to " ++ newM ++ ".")%string)
          else (s, "")
      | None => (s, "")
      end
    else (s, "") in
  let s := if String.eqb actionMessage "" then s else showAction actionMessage s in
  sendToolResponse (mkFunctionResponse (fc_id fc) (fc_name fc) result) s.

(** [if (message.toolCall) { ... }] *)
Definition onToolCall `{Types} (calls : option (list FunctionCall)) (s : Settings)
  : Settings :=
  match calls with
  | Some functionCalls => fold_left (fun s fc => dispatch fc s) functionCalls s
  | None => s
  end.

Definition append_to (frag : option string) (acc : string) : string :=
  match truthy frag with
  | Some text => (acc ++ text)%string
  | None => acc
  end.

(** The transcript lines: the fragments are appended to the ref, then the
    state is set, from a function on turn-complete and from a copy
    otherwise.  [eager] tells whether React runs the function at the
    call. *)
Definition onTranscript (eager : bool) (m : LiveServerMessage) (c : Captions)
  : Captions :=
  let ref :=
    mkTranscript (append_to (inputTranscription m) (user (liveTranscriptRef c)))
                 (append_to (outputTranscription m) (assistant (liveTranscriptRef c))) in
  if turnComplete m then
    mkCaptions (liveTranscript c)
      (pendingTranscript c ++ [if eager then SetValue ref else SetFromRef])
      (mkTranscript "" "")
  else
    mkCaptions (liveTranscript c) (pendingTranscript c ++ [SetValue ref]) ref.

(** [if (audioSourcesRef.current.size === 0) setLiveStatus('listening')],
    in the turn-complete branch. *)
Definition onTurnComplete (m : LiveServerMessage) (p : Playback) : Playback :=
  if turnComplete m then
    match audioSources p with
    | [] => setLiveStatus listening p
    | _ :: _ => p
    end
  else p.

(** [Set.prototype.add]. *)
Definition set_add (x : nat) (s : list nat) : list nat :=
  if existsb (Nat.eqb x) s then s else s ++ [x].

(** [Set.prototype.delete]. *)
Definition set_delete (x : nat) (s : list nat) : list nat :=
  filter (fun y => negb (Nat.eqb x y)) s.

(** [if (audioData && outputAudioContextRef.current) { ... }], for an open
    session (the context exists), with [now] the value of
    [ctx.currentTime].  When decoding throws, the handler's promise is
    rejected and what was assigned before stays. *)
Definition onAudio (now : Q) (audio : option string) (p : Playback)
  : Playback * option exn :=
  match truthy audio with
  | None => (p, None)
  | Some base64 =>
      let next := Qmax (nextStartTime p) now in
      match decodeInboundChunk base64 24000 1 with
      | Throw e =>
          (mkPlayback speaking (audioSources p) next (started p) (stopped p) (ended p),
           Some e)
      | Ok audioBuffer =>
          let source := List.length (started p) in
          (mkPlayback speaking
             (set_add source (audioSources p))
             (next + duration audioBuffer)%Q
             (started p ++ [mkPlaying source next (duration audioBuffer)])
             (stopped p) (ended p),
           None)
      end
  end.

(** The handler.  The result tells whether its promise was rejected. *)
Definition onmessage `{Types} (now : Q) (eager : bool) (message : LiveServerMessage)
  (s : Live) : Live * option exn :=
  let p := playback s in
  let p := if interrupted message then onInterrupted p else p in
  let st := onToolCall (toolCall message) (settings s) in
  let c := onTranscript eager message (captions s) in
  let p := onTurnComplete message p in
  let '(p, e) := onAudio now (audioData message) p in
  (mkLive (isLive s) st c p, e).

(** The [ended] listener of a source. *)
Definition onended (h : nat) (p : Playback) : Playback :=
  let sources := set_delete h (audioSources p) in
  mkPlayback
    (match sources with [] => listening | _ :: _ => liveStatus p end)
    sources (nextStartTime p) (started p) (stopped p) (ended p ++ [h]).

(** A render: React applies the pending updates in order; an update that
    is still a function reads the ref now. *)
Definition apply_update (ref : Transcript) (prev : Transcript) (u : TranscriptUpdate)
  : Transcript :=
  match u with
  | SetValue t => t
  | SetFromRef => mkTranscript (user ref) (assistant ref)
  end.

Definition render (c : Captions) : Captions :=
  mkCaptions
    (fold_left (apply_update (liveTranscriptRef c)) (pendingTranscript c) (liveTranscript c))
    [] (liveTranscriptRef c).

(** *** The session over time

    Inbound messages arrive at given readings of the output clock.  Between
    two of them the audio engine dispatches [ended] to every source that has
    played to its end ([startAt + playFor] is not after the clock) or was
    stopped; sources end in the order they were started.  A listener that
    is due at the very reading of a message runs before the handler. *)

Inductive Callback : Set :=
| Inbound (k : nat)       (* [onmessage] for the [k]-th message *)
| SourceEnded (h : nat)   (* the [ended] listener of source [h] *).

Definition mem (x : nat) (l : list nat) : bool := existsb (Nat.eqb x) l.

(** The sources whose [ended] is due; [None] stands for the end of time. *)
Definition due (clock : option Q) (p : Playback) : list nat :=
  map source
    (filter
       (fun pl =>
          negb (mem (source pl) (ended p))
          && (mem (source pl) (stopped p)
              || match clock with
                 | Some now => Qle_bool (startAt pl + playFor pl) now
                 | None => true
                 end))
       (started p)).

Definition with_playback (s : Live) (p : Playback) : Live :=
  mkLive (isLive s) (settings s) (captions s) p.

Fixpoint run_ended (hs : list nat) (s : Live) : list (Callback * Live) * Live :=
  match hs with
  | [] => ([], s)
  | h :: hs' =>
      let s1 := with_playback s (onended h (playback s)) in
      let '(trace, s2) := run_ended hs' s1 in
      ((SourceEnded h, s1) :: trace, s2)
  end.

(** The callbacks run for a timeline of inbound messages, numbered from
    [k], each with the state it leaves; after the last message every source
    still playing runs to its end. *)
Fixpoint play `{Types} (k : nat) (timeline : list (Q * bool * LiveServerMessage))
  (s : Live) : list (Callback * Live) :=
  match timeline with
  | [] => fst (run_ended (due None (playback s)) s)
  | (now, eager, message) :: rest =>
      let '(trace, s1) := run_ended (due (Some now) (playback s)) s in
      let s2 := fst (onmessage now eager message s1) in
      trace ++ (Inbound k, s2) :: play (S k) rest s2
  end.

(** The changes of [liveStatus] along a trace: the callback, the status
    before and the status after. *)
Fixpoint transitions (from : LiveStatus) (trace : list (Callback * Live))
  : list (Callback * LiveStatus * LiveStatus) :=
  match trace with
  | [] => []
  | (c, s) :: rest =>
      let to := liveStatus (playback s) in
      match from, to with
      | listening, listening | speaking, speaking
      | thinking, thinking | idle, idle => transitions to rest
      | _, _ => (c, from, to) :: transitions to rest
      end
  end.

Definition speaking_to_listening (t : Callback * LiveStatus * LiveStatus) : bool :=
  match t with
  | (_, speaking, listening) => true
  | _ => false
  end.

(** A message that carries only the given field. *)
Definition audio_message (base64 : string) : LiveServerMessage :=
  mkMessage false None None None false (Some base64).
Definition turn_complete_message : LiveServerMessage :=
  mkMessage false None None None true None.
Definition interrupted_message : LiveServerMessage :=
  mkMessage true None None None false None.
Definition tool_message (calls : list FunctionCall) : LiveServerMessage :=
  mkMessage false (Some calls) None None false None.
Definition output_message (text : string) : LiveServerMessage :=
  mkMessage false None (Some text) None false None.
Definition input_message (text : string) : LiveServerMessage :=
  mkMessage false None None (Some text) false None.

(** An inbound chunk of [n] sample frames of silence, as it is on the wire. *)
Definition silence (n : Z) : string := encode (repeat x00 (Z.to_nat (2 * n))).


(** Messages handled one after the other, each with the reading of the
    clock and React's choice at its arrival. *)
Definition handle `{Types} (s : Live) (a : Q * bool * LiveServerMessage) : Live :=
  let '(now, eager, message) := a in fst (onmessage now eager message s).

Definition handle_all `{Types} (l : list (Q * bool * LiveServerMessage)) (s : Live)
  : Live :=
  fold_left handle l s.

(** ** Notions used in the statements *)

(** The acknowledgement a tool call is owed: its id, its name, and the
    generic result. *)
Definition acknowledgement (fc : FunctionCall) : FunctionResponse :=
  mkFunctionResponse (fc_id fc) (fc_name fc) "ok".

(** A call whose argument, if it is one of the two known tools, is not a
    member of the enumeration it is checked against. *)
Definition unrecognised `{Types} (fc : FunctionCall) : Prop :=
  (fc_name fc = "changePersonality" ->
   forall v, arg (fc_args fc) "personality" = Some v -> ~ In v Personality_values)
  /\ (fc_name fc = "changeMode" ->
      forall v, arg (fc_args fc) "mode" = Some v -> ~ In v AppMode_values).

(** The schedule of the code for chunks of the given durations arriving at
    the given readings of the clock: each starts at the later of the next
    start and the clock, and the next start moves to its end. *)
Fixpoint scheduled (k : nat) (next : Q) (clocks durations : list Q) : list Playing :=
  match clocks, durations with
  | now :: clocks', d :: durations' =>
      mkPlaying k (Qmax next now) d
        :: scheduled (S k) (Qmax next now + d)%Q clocks' durations'
  | _, _ => []
  end.

(** A message of a run: no interruption flag, and a chunk that decodes to
    the given buffer. *)
Definition carries (c : Q * bool * LiveServerMessage) (buffer : AudioBuffer) : Prop :=
  interrupted (snd c) = false
  /\ exists base64 : string,
       audioData (snd c) = Some base64 /\ base64 <> ""
       /\ decodeInboundChunk base64 24000 1 = Ok buffer.

(** Chunks laid end to end from [t] on, numbered from [k]. *)
Fixpoint back_to_back (k : nat) (t : Q) (durations : list Q) : list Playing :=
  match durations with
  | [] => []
  | d :: rest => mkPlaying k t d :: back_to_back (S k) (t + d)%Q rest
  end.

(** Every chunk arrives no later than the end of what is scheduled before
    it: the clock has not passed the next start. *)
Fixpoint on_time (next : Q) (clocks durations : list Q) : Prop :=
  match clocks, durations with
  | now :: clocks', d :: durations' =>
      (now <= next)%Q /\ on_time (next + d)%Q clocks' durations'
  | _, _ => True
  end.

Definition sumQ (l : list Q) : Q := fold_right Qplus 0%Q l.

(** Tables for the examples; the theorems hold for any. *)
Definition sample_types : Types :=
  Build_Types
    ["Nihara"; "Sage"]
    ["Chat"; "Code Writer"; "Deep Research"; "Study Buddy"; "Astro Guide";
     "AI Diary"; "Image Gen"]
    "Nihara" "Chat" "AI Diary".

(** A session with a backlog, for the examples: two chunks of two and of
    three frames of silence delivered at clock zero. *)
Definition backlog_state : Live :=
  @handle_all sample_types
    [(0%Q, true, audio_message (silence 2)); (0%Q, true, audio_message (silence 3))]
    (handleToggleLiveMode (@initial sample_types)).

(** ** Function calls as they arrive

    In the SDK's [FunctionCall] the field [args] is optional.  The record
    [FunctionCall] above is a call that carries its [args], and [onmessage]
    is the handler on messages whose calls all do; here are the two loops
    over function calls on the calls as they arrive. *)

Record InboundCall : Type := mkInboundCall {
  call_id : string;
  call_name : string;
  call_args : option (list (string * string))   (* [None] is [undefined] *)
}.

(** [fc.args.key], and a key of [const { ... } = call.args]: reading a
    property of [undefined] throws a [TypeError]. *)
Definition args_get (args : option (list (string * string))) (key : string)
  : result (option string) :=
  match args with
  | Some a => Ok (arg a key)
  | None => Throw TypeError
  end.

(** One iteration of [for (const fc of message.toolCall.functionCalls)].
    When [fc.args.personality] or [fc.args.mode] throws, nothing of the
    iteration has been done. *)
Definition dispatchInbound `{Types} (fc : InboundCall) (s : Settings)
  : result Settings :=
  let result := "ok" in
  let* changed :=
    if String.eqb (call_name fc) "changePersonality" then
      let* newP := args_get (call_args fc) "personality" in
      match newP with
      | Some newP =>
          if includes Personality_values (Some newP)
          then Ok (setCurrentPersonality newP s,
                   ("Personality set to " ++ newP ++ ".")%string)
          else Ok (s, "")
      | None => Ok (s, "")
      end
    else if String.eqb (call_name fc) "changeMode" then
      let* newM := args_get (call_args fc) "mode" in
      match newM with
      | Some newM =>
          if includes AppMode_values (Some newM)
          then Ok (setCurrentMode newM s, ("Mode changed to " ++ newM ++ ".")%string)
          else Ok (s, "")
      | None => Ok (s, "")
      end
    else Ok (s, "") in
  let '(s, actionMessage) := changed in
  let s := if String.eqb actionMessage "" then s else showAction actionMessage s in
  Ok (sendToolResponse (mkFunctionResponse (call_id fc) (call_name fc) result) s).

(** The loop of the [if (message.toolCall)] block: the state it leaves, and
    the exception that ended it, if one did.  What was set and sent before
    the exception stays. *)
Fixpoint toolCallLoop `{Types} (functionCalls : list InboundCall) (s : Settings)
  : Settings * option exn :=
  match functionCalls with
  | [] => (s, None)
  | fc :: rest =>
      match dispatchInbound fc s with
      | Ok s' => toolCallLoop rest s'
      | Throw e => (s, Some e)
      end
  end.

(** The acknowledgement an inbound call is owed. *)
Definition acknowledge (fc : InboundCall) : FunctionResponse :=
  mkFunctionResponse (call_id fc) (call_name fc) "ok".

(** A call whose [args] the loop of the live session does not read, or can
    read: it carries them, or it names neither tool. *)
Definition answerable (fc : InboundCall) : Prop :=
  call_args fc = None ->
  call_name fc <> "changePersonality" /\ call_name fc <> "changeMode".

(** An inbound call as a call that carries its [args]; a call without them
    has none to offer. *)
Definition asFunctionCall (fc : InboundCall) : FunctionCall :=
  mkFunctionCall (call_id fc) (call_name fc)
    (match call_args fc with Some a => a | None => [] end).

(** ** The rest of the component

    The other handlers of [src/App.tsx], each as a function on the state it
    reads and writes.  A reading of [Date.now()] and the answer of a remote
    call are arguments. *)

(** *** The microphone level: the [draw] loop of [onopen] *)

(** [dataArray.reduce((acc, val) => acc + val, 0) / bufferLength / 128],
    where [bufferLength] is the length of [dataArray]. *)
Definition micLevel (dataArray : list byte) : Q :=
  let bufferLength := List.length dataArray in
  let total := fold_left (fun acc val => acc + Z_of_byte val) dataArray 0 in
  let avg := (inject_Z total / inject_Z (Z.of_nat bufferLength))%Q in
  (avg / 128)%Q.

(** *** Reminders *)

(** What [new Date(s).getTime()] gives: milliseconds, or [NaN] when the
    string is not a date; and what the [dueTime] of a reminder can hold
    besides: [null], once a [NaN] has been through [JSON.stringify]. *)
Inductive epoch : Set :=
| Ms (t : Z)
| NaNms
| Null.

(** [Date.now().toString()]. *)
Definition toString (n : Z) : string := NilZero.string_of_int (Z.to_int n).

Record Reminder : Type := mkReminder {
  reminder_id : string;
  reminder_text : option string;   (* [undefined] when the argument is missing *)
  dueTime : epoch
}.

Inductive ToastType : Set := success | info.

Record Toast : Type := mkToast {
  toast_message : string;
  toast_type : ToastType
}.

Record Notices : Type := mkNotices {
  reminders : list Reminder;
  toast : option Toast
}.

(** A value in a template literal. *)
Definition interpolate (v : option string) : string :=
  match v with
  | Some text => text
  | None => "undefined"
  end.

(** [now >= r.dueTime]: false when the due time is [NaN]; [null] is
    compared as [0]. *)
Definition isDue (now : Z) (r : Reminder) : bool :=
  match dueTime r with
  | Ms t => t <=? now
  | NaNms => false
  | Null => 0 <=? now
  end.

(** The body of the interval of the "Reminder checker" effect, which runs
    every minute. *)
Definition checkReminders (now : Z) (n : Notices) : Notices :=
  let dueReminders := filter (isDue now) (reminders n) in
  match dueReminders with
  | reminder :: _ =>
      mkNotices
        (filter (fun r => negb (String.eqb (reminder_id r) (reminder_id reminder)))
           (reminders n))
        (Some (mkToast ("Reminder: " ++ interpolate (reminder_text reminder))%string info))
  | [] => n
  end.

(** The reminders across a reload of the page: the effect on [reminders]
    writes [JSON.stringify(reminders)] to the storage at every change, and
    the effect of the mount sets [JSON.parse] of what it finds there.
    [JSON.stringify] writes [NaN] as [null]; a text that is [undefined] is
    left out and is [undefined] again.  The toast starts as [null]. *)
Definition revive (r : Reminder) : Reminder :=
  mkReminder (reminder_id r) (reminder_text r)
    (match dueTime r with
     | NaNms => Null
     | d => d
     end).

Definition reload (n : Notices) : Notices :=
  mkNotices (map revive (reminders n)) None.

(** [addReminder(text, dueTime)], with the reading of [Date.now()]. *)
Definition addReminder (now : Z) (text : option string) (due : epoch) (n : Notices)
  : Notices :=
  mkNotices (reminders n ++ [mkReminder (toString now) text due])
    (Some (mkToast "Reminder set!" success)).

Record FunctionResponsePart : Type := mkFunctionResponsePart {
  part_name : string;
  part_result : string
}.

(** The loop of [handleSendMessage] over the function calls of a response,
    for calls that carry their [args].  Each call comes with the reading of
    [Date.now()] at the time it is handled.  [getTime] is
    [s => new Date(s).getTime()]; it does not throw, nor does [addReminder],
    so the [catch] of the source is never entered. *)
Definition onFunctionCall (getTime : option string -> epoch)
  (st : Notices * list FunctionResponsePart) (c : Z * FunctionCall)
  : Notices * list FunctionResponsePart :=
  let '(n, functionResponses) := st in
  let '(now, call) := c in
  if String.eqb (fc_name call) "setReminder" then
    let reminderText := arg (fc_args call) "reminderText" in
    let dateTime := arg (fc_args call) "dateTime" in
    let due := getTime dateTime in
    (addReminder now reminderText due n,
     functionResponses ++ [mkFunctionResponsePart "setReminder" "OK, reminder is set."])
  else st.

Definition onFunctionCalls (getTime : option string -> epoch)
  (calls : list (Z * FunctionCall)) (n : Notices)
  : Notices * list FunctionResponsePart :=
  fold_left (onFunctionCall getTime) calls (n, []).

(** The calls of a response that the loop handles, and the reminder that
    the loop adds for one of them. *)
Definition isSetReminder (c : Z * FunctionCall) : bool :=
  String.eqb (fc_name (snd c)) "setReminder".

Definition reminderOf (getTime : option string -> epoch) (c : Z * FunctionCall)
  : Reminder :=
  mkReminder (toString (fst c)) (arg (fc_args (snd c)) "reminderText")
    (getTime (arg (fc_args (snd c)) "dateTime")).

(** The same loop on the calls as they arrive.
    [const { reminderText, dateTime } = call.args] stands before the inner
    [try]: on a [setReminder] call without [args] it throws a [TypeError],
    the loop is abandoned and the responses collected so far are not sent;
    the reminders added before stay. *)
Fixpoint functionCallLoop (getTime : option string -> epoch)
  (calls : list (Z * InboundCall)) (n : Notices)
  (functionResponses : list FunctionResponsePart)
  : Notices * result (list FunctionResponsePart) :=
  match calls with
  | [] => (n, Ok functionResponses)
  | (now, call) :: rest =>
      if String.eqb (call_name call) "setReminder" then
        match call_args call with
        | None => (n, Throw TypeError)
        | Some args =>
            let reminderText := arg args "reminderText" in
            let dateTime := arg args "dateTime" in
            let dueTime := getTime dateTime in
            functionCallLoop getTime rest (addReminder now reminderText dueTime n)
              (functionResponses
                 ++ [mkFunctionResponsePart "setReminder" "OK, reminder is set."])
        end
      else functionCallLoop getTime rest n functionResponses
  end.

(** An inbound call with its reading of the clock, as a call that carries
    its [args]; and a call whose [args] the loop can read, or does not
    read. *)
Definition timed (c : Z * InboundCall) : Z * FunctionCall :=
  (fst c, asFunctionCall (snd c)).

Definition readable (c : Z * InboundCall) : Prop :=
  call_name (snd c) = "setReminder" -> call_args (snd c) <> None.

(** The minutes go by: the checker runs at each of the given readings. *)
Definition minutes (clocks : list Z) (n : Notices) : Notices :=
  fold_left (fun n now => checkReminders now n) clocks n.

(** The messages of the toasts shown by the checker at the given readings,
    one entry per reading at which a reminder fired. *)
Fixpoint fired (clocks : list Z) (n : Notices) : list string :=
  match clocks with
  | [] => []
  | now :: rest =>
      match filter (isDue now) (reminders n) with
      | reminder :: _ =>
          ("Reminder: " ++ interpolate (reminder_text reminder))%string
            :: fired rest (checkReminders now n)
      | [] => fired rest (checkReminders now n)
      end
  end.

(** *** The chat history *)

(** The text of a message and the summary of a chat are cut and compared
    by position, and a JavaScript string counts in UTF-16 code units: they
    are sequences of code units.  [js s] is the string of a literal of the
    source, whose characters are ASCII. *)
Definition JSString : Type := list N.

Definition js (s : string) : JSString := map N_of_ascii (list_ascii_of_string s).

(** [a === b] on strings. *)
Fixpoint sameUnits (a b : JSString) : bool :=
  match a, b with
  | [], [] => true
  | x :: a', y :: b' => N.eqb x y && sameUnits a' b'
  | _, _ => false
  end.

(** A string, or [undefined], as an operand of [+] with a string. *)
Definition toJSString (v : option JSString) : JSString :=
  match v with
  | Some s => s
  | None => js "undefined"
  end.

(** The members of [MessageSender] that the code names. *)
Inductive MessageSender : Set := User | Assistant.

Record ChatMessage : Type := mkChatMessage {
  message_id : string;
  sender : MessageSender;
  text : JSString;
  timestamp : Z
}.

Record ChatHistory : Type := mkChatHistory {
  chat_id : string;
  chat_messages : list ChatMessage;
  chat_timestamp : Z;
  summary : JSString;
  chat_personality : string;
  chat_mode : string
}.

(** [s.endsWith(suffix)]. *)
Definition endsWith (s suffix : JSString) : bool :=
  (List.length suffix <=? List.length s)%nat
  && sameUnits (skipn (List.length s - List.length suffix) s) suffix.

(** [!s] on a string. *)
Definition isEmpty (s : JSString) : bool :=
  match s with
  | [] => true
  | _ :: _ => false
  end.

(** [history.find(h => h.id === id)]. *)
Definition findChat (id : string) (history : list ChatHistory) : option ChatHistory :=
  find (fun h => String.eqb (chat_id h) id) history.

(** [prev.findIndex(h => h.id === id)]; [None] stands for [-1]. *)
Fixpoint findIndex (id : string) (history : list ChatHistory) : option nat :=
  match history with
  | [] => None
  | h :: rest =>
      if String.eqb (chat_id h) id then Some O
      else option_map S (findIndex id rest)
  end.

(** The summary that [saveCurrentChat] gives the chat: the one it has when
    that is not empty and does not end in ["..."], otherwise the first forty
    code units ([substring(0, 40)]) of the first message of the user
    followed by ["..."].  With no message of the user the left operand of
    [+] is [undefined]; the default ['New Chat'] stands behind a string that
    is never empty. *)
Definition chatSummary (existingChat : option ChatHistory) (messages : list ChatMessage)
  : JSString :=
  let kept :=
    match existingChat with
    | Some chat =>
        negb (isEmpty (summary chat)) && negb (endsWith (summary chat) (js "..."))
    | None => false
    end in
  if kept then
    match existingChat with
    | Some chat => summary chat
    | None => []
    end
  else
    let default :=
      toJSString
        (option_map (fun m => firstn 40 (text m))
           (find (fun m => match sender m with User => true | _ => false end)
              messages))
      ++ js "..." in
    if isEmpty default then js "New Chat" else default.

(** [saveCurrentChat]: the history it leaves.  [history] is the state the
    callback read, [prev] the state that React hands to the updater of
    [setHistory]; [now] is the reading of [Date.now()].  A chat id that is
    [null] or empty is falsy.  [existingIndex] is an index of [prev], so the
    assignment replaces an element. *)
Definition saveCurrentChat (now : Z) (messages : list ChatMessage)
  (currentChatId : option string) (personality mode : string)
  (history prev : list ChatHistory) : list ChatHistory :=
  match messages, truthy currentChatId with
  | _ :: _, Some id =>
      let existingChat := findChat id history in
      let newHistoryItem :=
        mkChatHistory id messages now (chatSummary existingChat messages)
          personality mode in
      match findIndex (chat_id newHistoryItem) prev with
      | Some existingIndex => array_set prev existingIndex newHistoryItem
      | None => prev ++ [newHistoryItem]
      end
  | _, _ => prev
  end.

(** [updateCurrentChatSummary]: the history it leaves; [newSummary] is the
    answer of [summarizeChat], [history] and [prev] are as above. *)
Definition updateCurrentChatSummary (newSummary : JSString)
  (messages : list ChatMessage) (currentChatId : option string)
  (history prev : list ChatHistory) : list ChatHistory :=
  match truthy currentChatId with
  | None => prev
  | Some id =>
      if (List.length messages <? 2)%nat then prev
      else
        let chatToUpdate := findChat id history in
        let stale :=
          match chatToUpdate with
          | None => true
          | Some chat => endsWith (summary chat) (js "...") || isEmpty (summary chat)
          end in
        if stale then
          map (fun h =>
                 if String.eqb (chat_id h) id
                 then mkChatHistory (chat_id h) (chat_messages h) (chat_timestamp h)
                        newSummary (chat_personality h) (chat_mode h)
                 else h) prev
        else prev
  end.

(** The conversation on screen: [messages], [currentChatId],
    [currentPersonality] and [currentMode]. *)
Record Conversation : Type := mkConversation {
  conv_messages : list ChatMessage;
  conv_chatId : option string;
  conv_personality : string;
  conv_mode : string
}.

(** [handleLoadChat(id, allHistory)], after its [await]: what it sets.
    [allHistory] is [null] by default; an array, even an empty one, is
    truthy. *)
Definition handleLoadChat (id : string) (allHistory : option (list ChatHistory))
  (history : list ChatHistory) (c : Conversation) : Conversation :=
  let chatToLoad :=
    findChat id (match allHistory with Some a => a | None => history end) in
  match chatToLoad with
  | Some chat => mkConversation (chat_messages chat) (Some id) (chat_personality chat)
                   (chat_mode chat)
  | None => c
  end.

(** What happens to the history while a conversation is on screen, when no
    other update of the history is pending: the effect that follows a
    change of the messages saves the chat, and [handleLoadChat] and
    [handleNewChat] first refresh its summary. *)
Inductive HistoryOp : Type :=
| Saves (now : Z) (c : Conversation)
| Summarises (newSummary : JSString) (c : Conversation).

Definition apply_op (history : list ChatHistory) (op : HistoryOp) : list ChatHistory :=
  match op with
  | Saves now c =>
      saveCurrentChat now (conv_messages c) (conv_chatId c) (conv_personality c)
        (conv_mode c) history history
  | Summarises newSummary c =>
      updateCurrentChatSummary newSummary (conv_messages c) (conv_chatId c)
        history history
  end.

(** Notions for the statements about the history: a summary that
    [saveCurrentChat] keeps, the summary it gives otherwise, and the list
    with the chat of an id replaced where it first occurs, or added at the
    end. *)
Definition curated (s : JSString) : bool :=
  negb (isEmpty s) && negb (endsWith s (js "...")).

Definition defaultSummary (messages : list ChatMessage) : JSString :=
  toJSString
    (option_map (fun m => firstn 40 (text m))
       (find (fun m => match sender m with User => true | _ => false end) messages))
  ++ js "...".

Fixpoint upsert (item : ChatHistory) (history : list ChatHistory) : list ChatHistory :=
  match history with
  | [] => [item]
  | h :: rest =>
      if String.eqb (chat_id h) (chat_id item) then item :: rest
      else h :: upsert item rest
  end.

(** *** The callbacks of a live session, in any order *)

Inductive Event : Type :=
| Arrives (now : Q) (eager : bool) (message : LiveServerMessage)
| Ends (h : nat)      (* the [ended] listener of source [h] runs *)
| Toggles             (* [handleToggleLiveMode] *).

Definition react `{Types} (s : Live) (e : Event) : Live :=
  match e with
  | Arrives now eager message => fst (onmessage now eager message s)
  | Ends h => with_playback s (onended h (playback s))
  | Toggles => handleToggleLiveMode s
  end.

Definition react_all `{Types} (events : list Event) (s : Live) : Live :=
  fold_left react events s.

(** What the sources in use satisfy at any time: they are numbered in the
    order they were started, the active ones are distinct, were started and
    were not stopped, and only started ones were stopped. *)
Definition tidy (p : Playback) : Prop :=
  map source (started p) = seq 0 (List.length (started p))
  /\ NoDup (audioSources p)
  /\ (forall h, In h (audioSources p) ->
        (h < List.length (started p))%nat /\ ~ In h (stopped p))
  /\ (forall h, In h (stopped p) -> (h < List.length (started p))%nat).

(** * Properties *)

Ltac Zify.zify_post_hook ::= Z.to_euclidean_division_equations.

(** ** Base64 *)

Module Base64Facts.
Import Base64.

(** Induction on a string three characters at a time, as [btoa] reads it. *)
Lemma by_triples (P : string -> Prop) :
  P EmptyString ->
  (forall a, P (String a EmptyString)) ->
  (forall a b, P (String a (String b EmptyString))) ->
  (forall a b c s, P s -> P (String a (String b (String c s)))) ->
  forall s, P s.
Proof.
  intros H0 H1 H2 H3 s.
  assert (G : P s /\ (forall a, P (String a s))
              /\ (forall a b, P (String a (String b s)))).
  { induction s as [|c s [IH0 [IH1 IH2]]].
    - repeat split; auto.
    - repeat split; auto. }
  apply G.
Qed.

Lemma sextet_roundtrip (n : N) :
  (n < 64)%N -> char_sextet (sextet_char n) = Some n.
Proof.
  intros Hn.
  rewrite <- (N2Nat.id n).
  assert (Hk : (N.to_nat n < 64)%nat) by lia.
  clear Hn. revert Hk. generalize (N.to_nat n). clear n. intros k Hk.
  do 64 (destruct k as [|k]; [reflexivity|]). lia.
Qed.

Lemma sextet_char_plain (n : N) :
  (n < 64)%N ->
  sextet_char n <> pad /\ is_whitespace (sextet_char n) = false.
Proof.
  intros Hn.
  rewrite <- (N2Nat.id n).
  assert (Hk : (N.to_nat n < 64)%nat) by lia.
  clear Hn. revert Hk. generalize (N.to_nat n). clear n. intros k Hk.
  do 64 (destruct k as [|k]; [split; [discriminate|reflexivity]|]). lia.
Qed.

Lemma sextet_bounds (a b c : N) :
  (a < 256)%N -> (b < 256)%N -> (c < 256)%N ->
  (s1 a < 64)%N /\ (s2 a b < 64)%N /\ (s3 b c < 64)%N /\ (s4 c < 64)%N.
Proof.
  unfold s1, s2, s3, s4. intros Ha Hb Hc.
  split; [lia|split; [lia|split; lia]].
Qed.

Lemma bytes_back (a b c : N) :
  (a < 256)%N -> (b < 256)%N -> (c < 256)%N ->
  b1 (s1 a) (s2 a b) = a /\ b2 (s2 a b) (s3 b c) = b
  /\ b3 (s3 b c) (s4 c) = c.
Proof.
  unfold b1, b2, b3, s1, s2, s3, s4. intros Ha Hb Hc.
  split; [lia|split; lia].
Qed.

Lemma body_bounded (s : string) : Forall (fun n => (n < 64)%N) (body s).
Proof.
  induction s as [|a|a b|a b c s IH] using by_triples; cbn [body].
  - constructor.
  - pose proof (N_ascii_bounded a) as Ha.
    destruct (sextet_bounds (N_of_ascii a) 0 0) as (? & ? & ? & ?);
      try lia; auto.
  - pose proof (N_ascii_bounded a) as Ha. pose proof (N_ascii_bounded b) as Hb.
    destruct (sextet_bounds (N_of_ascii a) (N_of_ascii b) 0) as (? & ? & ? & ?);
      try lia; auto.
  - pose proof (N_ascii_bounded a) as Ha. pose proof (N_ascii_bounded b) as Hb.
    pose proof (N_ascii_bounded c) as Hc.
    destruct (sextet_bounds (N_of_ascii a) (N_of_ascii b) (N_of_ascii c))
      as (? & ? & ? & ?); auto.
Qed.

Lemma btoa_split (s : string) :
  list_ascii_of_string (btoa s) = map sextet_char (body s) ++ padding s.
Proof.
  induction s as [|a|a b|a b c s IH] using by_triples;
    cbn [btoa body padding list_ascii_of_string map app]; try reflexivity.
  now rewrite IH.
Qed.

Lemma body_bytes (s : string) : bytes_of_sextets (body s) = s.
Proof.
  induction s as [|a|a b|a b c s IH] using by_triples;
    cbn [body bytes_of_sextets].
  - reflexivity.
  - pose proof (N_ascii_bounded a) as Ha.
    destruct (bytes_back (N_of_ascii a) 0 0) as (E1 & _); try lia.
    now rewrite E1, ascii_N_embedding.
  - pose proof (N_ascii_bounded a) as Ha. pose proof (N_ascii_bounded b) as Hb.
    destruct (bytes_back (N_of_ascii a) (N_of_ascii b) 0) as (E1 & E2 & _);
      try lia.
    now rewrite E1, E2, !ascii_N_embedding.
  - pose proof (N_ascii_bounded a) as Ha. pose proof (N_ascii_bounded b) as Hb.
    pose proof (N_ascii_bounded c) as Hc.
    destruct (bytes_back (N_of_ascii a) (N_of_ascii b) (N_of_ascii c))
      as (E1 & E2 & E3); auto.
    destruct (body s) as [|p [|q [|r [|t rest]]]] eqn:Eb;
      rewrite E1, E2, E3, !ascii_N_embedding, IH; reflexivity.
Qed.

Lemma sextets_chars (l : list N) :
  Forall (fun n => (n < 64)%N) l -> sextets (map sextet_char l) = Some l.
Proof.
  induction 1 as [|n l Hn _ IH]; cbn [map sextets]; [reflexivity|].
  now rewrite sextet_roundtrip, IH.
Qed.

Lemma chars_plain (l : list N) :
  Forall (fun n => (n < 64)%N) l ->
  Forall (fun c => c <> pad /\ is_whitespace c = false) (map sextet_char l).
Proof.
  induction 1 as [|n l Hn _ IH]; cbn [map]; constructor; auto.
  now apply sextet_char_plain.
Qed.

(** The shape of [btoa s]: groups of four characters, the last one padded
    with one [=] after three sextets or two after two. *)
Lemma body_shape (s : string) :
  exists k : nat,
    (padding s = [] /\ List.length (body s) = 4 * k)%nat
    \/ (padding s = [pad] /\ List.length (body s) = 4 * k + 3)%nat
    \/ (padding s = [pad; pad] /\ List.length (body s) = 4 * k + 2)%nat.
Proof.
  induction s as [|a|a b|a b c s IH] using by_triples; cbn [body padding List.length].
  - exists 0%nat. auto.
  - exists 0%nat. auto.
  - exists 0%nat. auto.
  - destruct IH as [k [[-> E]|[[-> E]|[-> E]]]]; exists (S k); rewrite E;
      [left|right; left|right; right]; split; auto; lia.
Qed.

Lemma strip_whitespace_plain (l : list ascii) :
  Forall (fun c => is_whitespace c = false) l -> strip_whitespace l = l.
Proof.
  unfold strip_whitespace.
  induction 1 as [|c l Hc _ IH]; cbn [filter]; [reflexivity|].
  now rewrite Hc, IH.
Qed.

Lemma head_of_rev {A : Type} (P : A -> Prop) (l : list A) (x : A) (r : list A) :
  Forall P l -> rev l = x :: r -> P x.
Proof.
  intros Hl E. rewrite Forall_forall in Hl. apply Hl.
  apply in_rev. rewrite E. now left.
Qed.

Lemma mod4 (k r : nat) : (r < 4)%nat -> ((4 * k + r) mod 4 = r)%nat.
Proof.
  intros Hr. rewrite Nat.add_comm, Nat.mul_comm, Nat.Div0.mod_add.
  now apply Nat.mod_small.
Qed.

Lemma strip_padding_none (r : list ascii) :
  (forall x r', r = x :: r' -> x <> pad) -> strip_padding_rev r = r.
Proof.
  intros Hr. unfold strip_padding_rev.
  destruct (_ =? _)%nat; [|reflexivity].
  destruct r as [|x [|y r']]; try reflexivity.
  assert (Hx : x <> pad) by (eapply Hr; reflexivity).
  apply Ascii.eqb_neq in Hx. now rewrite Hx.
Qed.

Lemma strip_padding_back (l p : list ascii) (k : nat) :
  Forall (fun c => c <> pad) l ->
  (p = [] /\ List.length l = 4 * k)%nat
  \/ (p = [pad] /\ List.length l = 4 * k + 3)%nat
  \/ (p = [pad; pad] /\ List.length l = 4 * k + 2)%nat ->
  rev (strip_padding_rev (rev (l ++ p))) = l.
Proof.
  intros Hl [[-> E]|[[-> E]|[-> E]]]; unfold strip_padding_rev.
  - rewrite app_nil_r.
    fold (strip_padding_rev (rev l)). rewrite strip_padding_none.
    + apply rev_involutive.
    + intros x r' Er. exact (head_of_rev (fun c => c <> pad) l x r' Hl Er).
  - rewrite rev_app_distr. cbn [rev app].
    assert (Em : (List.length (pad :: rev l) mod 4 =? 0)%nat = true).
    { apply Nat.eqb_eq. cbn [List.length]. rewrite length_rev, E.
      replace (S (4 * k + 3))%nat with (4 * (S k) + 0)%nat by lia.
      apply mod4. lia. }
    rewrite Em.
    destruct (rev l) as [|y r] eqn:Er.
    + apply (f_equal (@List.length _)) in Er. rewrite length_rev, E in Er.
      cbn in Er. lia.
    + assert (Hy : y <> pad)
        by exact (head_of_rev (fun c => c <> pad) l y r Hl Er).
      apply Ascii.eqb_neq in Hy. rewrite Ascii.eqb_refl, Hy.
      rewrite <- Er. apply rev_involutive.
  - rewrite rev_app_distr. cbn [rev app].
    assert (Em : (List.length (pad :: pad :: rev l) mod 4 =? 0)%nat = true).
    { apply Nat.eqb_eq. cbn [List.length]. rewrite length_rev, E.
      replace (S (S (4 * k + 2)))%nat with (4 * (S k) + 0)%nat by lia.
      apply mod4. lia. }
    rewrite Em, Ascii.eqb_refl. apply rev_involutive.
Qed.

(** Decoding what [btoa] made gives the string back. *)
Theorem atob_btoa (s : string) : atob (btoa s) = Some s.
Proof.
  unfold atob. rewrite btoa_split.
  pose proof (chars_plain _ (body_bounded s)) as Hplain.
  destruct (body_shape s) as [k Hshape].
  assert (Hws : Forall (fun c => is_whitespace c = false)
                  (map sextet_char (body s) ++ padding s)).
  { apply Forall_app. split.
    - eapply Forall_impl; [|exact Hplain]. now intros c [_ Hc].
    - destruct Hshape as [[-> _]|[[-> _]|[-> _]]]; repeat constructor. }
  rewrite (strip_whitespace_plain _ Hws).
  rewrite (strip_padding_back _ _ k).
  - assert (Hmod : (List.length (map sextet_char (body s)) mod 4 =? 1)%nat = false).
    { apply Nat.eqb_neq. rewrite length_map.
      destruct Hshape as [[_ E]|[[_ E]|[_ E]]]; rewrite E;
        [replace (4 * k)%nat with (4 * k + 0)%nat by lia| |];
        rewrite mod4; lia. }
    rewrite Hmod, (sextets_chars _ (body_bounded s)). cbn [option_map].
    now rewrite body_bytes.
  - eapply Forall_impl; [|exact Hplain]. now intros c [Hc _].
  - rewrite length_map. exact Hshape.
Qed.
End Base64Facts.

(** ** Typed arrays and loops *)

Lemma length_array_set {A : Type} (a : list A) (i : nat) (v : A) :
  List.length (array_set a i v) = List.length a.
Proof.
  revert i. induction a as [|x a IH]; intros [|i]; cbn; auto.
Qed.

Lemma nth_error_array_set {A : Type} (a : list A) (i k : nat) (v : A) :
  nth_error (array_set a i v) k =
  if (k =? i)%nat && (i <? List.length a)%nat then Some v else nth_error a k.
Proof.
  revert i k. induction a as [|x a IH]; intros [|i] [|k]; cbn;
    try reflexivity.
  - now rewrite andb_false_r.
  - apply IH.
Qed.

(** A loop [for i in a .. a+m-1: data[i] = f i]. *)
Lemma nth_error_fill {A : Type} (f : nat -> A) (m a : nat) (l : list A) (k : nat) :
  nth_error (fold_left (fun data i => array_set data i (f i)) (seq a m) l) k =
  if (a <=? k)%nat && (k <? a + m)%nat && (k <? List.length l)%nat
  then Some (f k) else nth_error l k.
Proof.
  revert a l. induction m as [|m IH]; intros a l; cbn [seq fold_left].
  - replace (k <? a + 0)%nat with (k <? a)%nat by (f_equal; lia).
    destruct (Nat.leb_spec a k), (Nat.ltb_spec k a); try lia; reflexivity.
  - rewrite IH, length_array_set, nth_error_array_set.
    destruct (Nat.leb_spec (S a) k), (Nat.leb_spec a k),
      (Nat.ltb_spec k (S a + m)), (Nat.ltb_spec k (a + S m)),
      (Nat.ltb_spec k (List.length l)), (Nat.eqb_spec k a),
      (Nat.ltb_spec a (List.length l)); cbn [andb]; try lia; try reflexivity.
    now subst.
Qed.

Lemma fill_all {A : Type} (f : nat -> A) (m : nat) (l : list A) :
  (List.length l <= m)%nat ->
  fold_left (fun data i => array_set data i (f i)) (seq 0 m) l =
  map f (seq 0 (List.length l)).
Proof.
  intros Hm. apply nth_error_ext. intros k.
  rewrite nth_error_fill, nth_error_map.
  destruct (Nat.ltb_spec k (List.length l)) as [Hk|Hk].
  - rewrite nth_error_seq.
    destruct (Nat.leb_spec 0 k), (Nat.ltb_spec k (0 + m)),
      (Nat.ltb_spec k (List.length l)); try lia. reflexivity.
  - rewrite andb_false_r.
    assert (E : nth_error (seq 0 (List.length l)) k = None)
      by (apply nth_error_None; rewrite length_seq; lia).
    rewrite E. cbn. apply nth_error_None. lia.
Qed.

(** A loop [for c in a .. a+m-1: chans[c] = g c chans[c]], where the
    element is left alone when there is none. *)
Lemma nth_error_update {A : Type} (g : nat -> A -> A) (m a : nat) (l : list A) (k : nat) :
  nth_error
    (fold_left
       (fun chans c =>
          match nth_error chans c with
          | Some x => array_set chans c (g c x)
          | None => chans
          end) (seq a m) l) k =
  if (a <=? k)%nat && (k <? a + m)%nat
  then option_map (g k) (nth_error l k) else nth_error l k.
Proof.
  revert a l. induction m as [|m IH]; intros a l; cbn [seq fold_left].
  - replace (k <? a + 0)%nat with (k <? a)%nat by (f_equal; lia).
    destruct (Nat.leb_spec a k), (Nat.ltb_spec k a); try lia; reflexivity.
  - rewrite IH.
    destruct (nth_error l a) as [x|] eqn:Ea.
    + assert (Hlen : (a < List.length l)%nat)
        by (apply nth_error_Some; congruence).
      rewrite nth_error_array_set.
      destruct (Nat.leb_spec (S a) k), (Nat.leb_spec a k),
        (Nat.ltb_spec k (S a + m)), (Nat.ltb_spec k (a + S m)),
        (Nat.eqb_spec k a), (Nat.ltb_spec a (List.length l));
        cbn [andb]; try lia; try reflexivity.
      subst. now rewrite Ea.
    + destruct (Nat.leb_spec (S a) k), (Nat.leb_spec a k),
        (Nat.ltb_spec k (S a + m)), (Nat.ltb_spec k (a + S m));
        cbn [andb]; try lia; try reflexivity.
      assert (k = a) by lia. subst. now rewrite Ea.
Qed.

Lemma update_all {A : Type} (g : nat -> A -> A) (z : A) (n : nat) :
  fold_left
    (fun chans c =>
       match nth_error chans c with
       | Some x => array_set chans c (g c x)
       | None => chans
       end) (seq 0 n) (repeat z n) =
  map (fun c => g c z) (seq 0 n).
Proof.
  apply nth_error_ext. intros k.
  rewrite nth_error_update, nth_error_map, nth_error_seq.
  destruct (Nat.leb_spec 0 k), (Nat.ltb_spec k (0 + n)), (Nat.ltb_spec k n);
    cbn [andb]; try lia.
  - rewrite nth_error_repeat by lia. reflexivity.
  - cbn. apply nth_error_None. rewrite repeat_length. lia.
Qed.

(** ** The codec *)

Lemma Qtrunc_nonneg (x : Q) : (0 <= x)%Q -> Qtrunc x = Qfloor x.
Proof.
  destruct x as [n d]. unfold Qle, Qtrunc, Qfloor. cbn. intros Hn.
  apply Z.quot_div_nonneg; lia.
Qed.

Lemma frameCount_trunc (n c : nat) :
  Qtrunc (inject_Z (Z.of_nat n) / inject_Z (Z.of_nat c)) = Z.of_nat (n / c).
Proof.
  rewrite Qtrunc_nonneg.
  - rewrite <- Zdiv_Qdiv. symmetry. apply Nat2Z.inj_div.
  - apply Qmult_le_0_compat; [|apply Qinv_le_0_compat];
      unfold Qle; cbn; lia.
Qed.

Lemma frameCount_iterations (n c : nat) :
  (n / c <= iterations (inject_Z (Z.of_nat n) / inject_Z (Z.of_nat c)))%nat.
Proof.
  unfold iterations.
  pose proof (Qle_floor_ceiling (inject_Z (Z.of_nat n) / inject_Z (Z.of_nat c))) as H.
  rewrite <- Zdiv_Qdiv, <- Nat2Z.inj_div in H.
  revert H. generalize (n / c)%nat, (Qceiling (inject_Z (Z.of_nat n) / inject_Z (Z.of_nat c))).
  intros k z H. rewrite <- Zle_Qle in H. lia.
Qed.

Lemma length_int16_pairs (buffer : list byte) :
  List.length (int16_pairs buffer) = (List.length buffer / 2)%nat.
Proof.
  assert (G : forall n (b : list byte), (List.length b <= n)%nat ->
              List.length (int16_pairs b) = (List.length b / 2)%nat).
  { induction n as [|n IH]; intros [|lo [|hi rest]] Hb; cbn in Hb; try lia;
      try reflexivity.
    cbn [int16_pairs List.length]. rewrite IH by lia.
    change (S (S (List.length rest))) with (1 * 2 + List.length rest)%nat.
    rewrite Nat.add_comm, Nat.div_add by lia. lia. }
  now apply (G (List.length buffer)).
Qed.

(** What [decodeAudioData] returns when it returns: as many frames as fit
    in the 16-bit values, channel [c] holding every [numChannels]-th value
    from the [c]-th on, each divided by [32768]. *)
Lemma decodeAudioData_frames (data : list byte) (rate : Q) (numChannels : nat) :
  Nat.even (List.length data) = true ->
  (1 <= numChannels <= 32)%nat ->
  (1 <= List.length data / 2 / numChannels)%nat ->
  Z.of_nat (List.length data / 2 / numChannels) < 4294967296 ->
  (8000 <= rate <= 96000)%Q ->
  decodeAudioData data rate numChannels =
  Ok (mkAudioBuffer numChannels (List.length data / 2 / numChannels) rate
        (map (fun c =>
                map (fun i => sample_at (int16_pairs data) (i * numChannels + c))
                    (seq 0 (List.length data / 2 / numChannels)))
             (seq 0 numChannels))).
Proof.
  intros Heven Hc Hframes Hbig [Hlo Hhi].
  unfold decodeAudioData, Int16Array_of_buffer. rewrite Heven. cbn [bind].
  unfold createBuffer.
  rewrite frameCount_trunc, length_int16_pairs, Z.mod_small by lia.
  rewrite Nat2Z.id.
  assert (E1 : ((1 <=? numChannels) && (numChannels <=? 32))%nat = true).
  { apply andb_true_iff. split; apply Nat.leb_le; lia. }
  assert (E2 : negb (List.length data / 2 / numChannels =? 0)%nat = true).
  { apply negb_true_iff, Nat.eqb_neq. lia. }
  apply Qle_bool_iff in Hlo, Hhi.
  rewrite E1, E2, Hlo, Hhi. cbn [andb bind numberOfChannels length sampleRate channelData].
  f_equal. f_equal.
  rewrite (update_all
             (fun channel data0 =>
                fillChannel (int16_pairs data) numChannels
                  (inject_Z (Z.of_nat (List.length data / 2)) / inject_Z (Z.of_nat numChannels))
                  channel data0)).
  apply map_ext. intros c. unfold fillChannel.
  rewrite (fill_all (fun i => sample_at (int16_pairs data) (i * numChannels + c))).
  - now rewrite repeat_length.
  - rewrite repeat_length. apply frameCount_iterations.
Qed.

Lemma nth_error_map_seq {A : Type} (f : nat -> A) (n k : nat) :
  (k < n)%nat -> nth_error (map f (seq 0 n)) k = Some (f k).
Proof.
  intros Hk. rewrite nth_error_map, nth_error_seq.
  destruct (Nat.ltb_spec k n); [reflexivity|lia].
Qed.

(** C7, the counterexample: a chunk of three bytes for one channel is not a
    whole number of frames, and [decodeAudioData] throws instead of
    dropping the odd byte; so does a chunk too short for a single frame. *)
Lemma odd_length_rejected :
  (List.length [x01; x00; x02] mod (1 * 2) <> 0)%nat
  /\ decodeAudioData [x01; x00; x02] 24000 1 = Throw RangeError
  /\ (List.length [x01; x00] mod (2 * 2) <> 0)%nat
  /\ decodeAudioData [x01; x00] 24000 2 = Throw NotSupportedError.
Proof. repeat split; try discriminate; reflexivity. Qed.

(** The complete frames of a chunk: what [decodeAudioData] returns for a
    byte length that is even and holds at least one frame. *)
Lemma complete_frames_kept (data : list byte) (rate : Q) (numChannels : nat) :
  Nat.even (List.length data) = true ->
  (1 <= numChannels <= 32)%nat ->
  (numChannels <= List.length data / 2)%nat ->
  Z.of_nat (List.length data / 2 / numChannels) < 4294967296 ->
  (8000 <= rate <= 96000)%Q ->
  exists buffer : AudioBuffer,
    decodeAudioData data rate numChannels = Ok buffer
    /\ numberOfChannels buffer = numChannels
    /\ length buffer = (List.length data / 2 / numChannels)%nat
    /\ List.length (channelData buffer) = numChannels
    /\ forall c i : nat,
         (c < numChannels)%nat -> (i < length buffer)%nat ->
         exists (samples : list number) (z : Z),
           nth_error (channelData buffer) c = Some samples
           /\ List.length samples = length buffer
           /\ nth_error (int16_pairs data) (i * numChannels + c) = Some z
           /\ nth_error samples i = Some (Num (inject_Z z / 32768)).
Proof.
  intros Heven Hc Hone Hbig Hrate.
  assert (Hframes : (1 <= List.length data / 2 / numChannels)%nat).
  { apply Nat.div_str_pos. lia. }
  eexists. split; [apply decodeAudioData_frames; assumption|].
  cbn [numberOfChannels length channelData].
  repeat split.
  - now rewrite length_map, length_seq.
  - intros c i Hci Hi.
    assert (Hk : (i * numChannels + c < List.length (int16_pairs data))%nat).
    { rewrite length_int16_pairs.
      pose proof (Nat.Div0.mul_div_le (List.length data / 2) numChannels) as Hle.
      revert Hi Hle. generalize (List.length data / 2 / numChannels)%nat.
      generalize (List.length data / 2)%nat. intros n frames Hi Hle. nia. }
    destruct (nth_error (int16_pairs data) (i * numChannels + c)) as [z|] eqn:Ez.
    + eexists. exists z. split; [now apply nth_error_map_seq|].
      split; [now rewrite length_map, length_seq|]. split; [reflexivity|].
      rewrite (nth_error_map_seq
                 (fun i => sample_at (int16_pairs data) (i * numChannels + c)))
        by assumption.
      unfold sample_at. now rewrite Ez.
    + apply nth_error_None in Ez. lia.
Qed.

(** A chunk that holds no complete frame: [createBuffer] is asked for a
    length of zero and throws. *)
Lemma no_frame_rejected (data : list byte) (rate : Q) (numChannels : nat) :
  Nat.even (List.length data) = true ->
  (List.length data / 2 < numChannels)%nat ->
  decodeAudioData data rate numChannels = Throw NotSupportedError.
Proof.
  intros Heven Hnone.
  unfold decodeAudioData, Int16Array_of_buffer. rewrite Heven. cbn [bind].
  unfold createBuffer.
  rewrite frameCount_trunc, length_int16_pairs, Nat.div_small by exact Hnone.
  cbn [Z.of_nat]. rewrite Z.mod_0_l by lia. cbn [Z.to_nat Nat.eqb negb].
  now rewrite andb_false_r.
Qed.

(** C7, as amended: an odd byte length is rejected with a [RangeError] when
    the [Int16Array] is made; an even byte length that holds no complete
    frame is rejected by [createBuffer] with a [NotSupportedError]; and for
    a byte length that is even and holds at least one frame,
    [decodeAudioData] returns a buffer of
    [floor(byteLength / 2 / numChannels)] frames whose samples are the
    16-bit values of the complete frames divided by [32768]: the values of
    a trailing partial frame are dropped. *)
Theorem partial_frame_dropped (data : list byte) (rate : Q) (numChannels : nat) :
  (Nat.even (List.length data) = false ->
   decodeAudioData data rate numChannels = Throw RangeError)
  /\ (Nat.even (List.length data) = true ->
      (List.length data / 2 < numChannels)%nat ->
      decodeAudioData data rate numChannels = Throw NotSupportedError)
  /\ (Nat.even (List.length data) = true ->
      (1 <= numChannels <= 32)%nat ->
      (numChannels <= List.length data / 2)%nat ->
      Z.of_nat (List.length data / 2 / numChannels) < 4294967296 ->
      (8000 <= rate <= 96000)%Q ->
      exists buffer : AudioBuffer,
        decodeAudioData data rate numChannels = Ok buffer
        /\ numberOfChannels buffer = numChannels
        /\ length buffer = (List.length data / 2 / numChannels)%nat
        /\ List.length (channelData buffer) = numChannels
        /\ forall c i : nat,
             (c < numChannels)%nat -> (i < length buffer)%nat ->
             exists (samples : list number) (z : Z),
               nth_error (channelData buffer) c = Some samples
               /\ List.length samples = length buffer
               /\ nth_error (int16_pairs data) (i * numChannels + c) = Some z
               /\ nth_error samples i = Some (Num (inject_Z z / 32768))).
Proof.
  split; [|split].
  - intros Hodd. unfold decodeAudioData, Int16Array_of_buffer.
    now rewrite Hodd.
  - apply no_frame_rejected.
  - apply complete_frames_kept.
Qed.

(** Three bytes for one channel; two bytes for two channels; and six bytes
    for two channels: one frame, the third value dropped. *)
Lemma partial_frame_dropped_witness :
  decodeAudioData [x01; x00; x02] 24000 1 = Throw RangeError
  /\ decodeAudioData [x01; x00] 24000 2 = Throw NotSupportedError
  /\ exists buffer : AudioBuffer,
       decodeAudioData [x01; x00; x02; x00; x03; x00] 24000 2 = Ok buffer
       /\ numberOfChannels buffer = 2%nat
       /\ length buffer = 1%nat
       /\ List.length (channelData buffer) = 2%nat
       /\ forall c i : nat,
            (c < 2)%nat -> (i < length buffer)%nat ->
            exists (samples : list number) (z : Z),
              nth_error (channelData buffer) c = Some samples
              /\ List.length samples = length buffer
              /\ nth_error (int16_pairs [x01; x00; x02; x00; x03; x00]) (i * 2 + c) = Some z
              /\ nth_error samples i = Some (Num (inject_Z z / 32768)).
Proof.
  split; [|split].
  - apply (partial_frame_dropped [x01; x00; x02] 24000 1). reflexivity.
  - apply (partial_frame_dropped [x01; x00] 24000 2); [reflexivity|cbn; lia].
  - apply (partial_frame_dropped [x01; x00; x02; x00; x03; x00] 24000 2).
    + reflexivity.
    + lia.
    + cbn. lia.
    + cbn. lia.
    + split; unfold Qle; cbn; lia.
Defined.

Lemma decode_encode (bytes : list byte) : decode (encode bytes) = Ok bytes.
Proof.
  unfold decode, encode. rewrite Base64Facts.atob_btoa.
  rewrite list_ascii_of_string_of_list_ascii, map_map.
  f_equal. rewrite <- (map_id bytes) at 2.
  apply map_ext. intros b. apply byte_of_ascii_of_byte.
Qed.

Lemma Z_of_byte_of_Z (z : Z) : Z_of_byte (byte_of_Z z) = z mod 256.
Proof.
  unfold Z_of_byte, byte_of_Z.
  destruct (Byte.of_N (Z.to_N (z mod 256))) as [b|] eqn:E.
  - apply Byte.to_of_N in E. rewrite E. lia.
  - apply Byte.of_N_None_iff in E. lia.
Qed.

Lemma int16_of_int16_bytes (z : Z) :
  -32768 <= z <= 32767 ->
  int16_of_bytes (byte_of_Z ((z mod 65536) mod 256)) (byte_of_Z ((z mod 65536) / 256)) = z.
Proof.
  intros Hz. unfold int16_of_bytes. rewrite !Z_of_byte_of_Z.
  destruct (Z.leb_spec 32768
              (((z mod 65536) mod 256) mod 256 + 256 * (((z mod 65536) / 256) mod 256)));
    lia.
Qed.

Lemma int16_pairs_of_Int16Array (a : list Z) :
  Forall (fun z => -32768 <= z <= 32767) a ->
  int16_pairs (Uint8Array_of_Int16Array a) = a.
Proof.
  induction 1 as [|z a Hz _ IH]; [reflexivity|].
  cbn [Uint8Array_of_Int16Array flat_map int16_bytes app int16_pairs].
  fold (Uint8Array_of_Int16Array a). now rewrite IH, int16_of_int16_bytes.
Qed.

Lemma length_Uint8Array_of_Int16Array (a : list Z) :
  List.length (Uint8Array_of_Int16Array a) = (2 * List.length a)%nat.
Proof.
  induction a as [|z a IH]; [reflexivity|].
  cbn [Uint8Array_of_Int16Array flat_map int16_bytes app List.length].
  fold (Uint8Array_of_Int16Array a). rewrite IH. lia.
Qed.

Lemma ToInt16_range (x : Q) : -32768 <= ToInt16 x <= 32767.
Proof.
  unfold ToInt16. destruct (Z.leb_spec 32768 (Qtrunc x mod 65536)); lia.
Qed.

Lemma Qtrunc_nonpos (x : Q) : (x <= 0)%Q -> Qtrunc x = Qceiling x.
Proof.
  destruct x as [n d]. unfold Qle, Qtrunc, Qceiling, Qfloor. cbn. intros Hn.
  rewrite <- (Z.opp_involutive n) at 1.
  rewrite Z.quot_opp_l by lia. f_equal.
  apply Z.quot_div_nonneg; lia.
Qed.

(** Truncation moves a value by less than one, towards zero. *)
Lemma Qtrunc_close (x : Q) :
  (Qabs (inject_Z (Qtrunc x) - x) < 1)%Q
  /\ ((0 <= x -> inject_Z (Qtrunc x) <= x) /\ (x <= 0 -> x <= inject_Z (Qtrunc x)))%Q.
Proof.
  split.
  - destruct (Qlt_le_dec x 0%Q) as [Hneg|Hpos].
    + pose proof (Qle_ceiling x) as C1. pose proof (Qceiling_lt x) as C2.
      unfold Zminus in C2. rewrite inject_Z_plus in C2.
      change (inject_Z (- (1))) with (-1 # 1)%Q in C2.
      rewrite (Qtrunc_nonpos x) by (apply Qlt_le_weak; exact Hneg).
      revert C1 C2. generalize (inject_Z (Qceiling x)). intros c C1 C2.
      apply Qabs_Qlt_condition. split; lra.
    + pose proof (Qfloor_le x) as F1. pose proof (Qlt_floor x) as F2.
      rewrite inject_Z_plus in F2. change (inject_Z 1) with 1%Q in F2.
      rewrite (Qtrunc_nonneg x) by exact Hpos.
      revert F1 F2. generalize (inject_Z (Qfloor x)). intros f F1 F2.
      apply Qabs_Qlt_condition. split; lra.
  - split; intros H.
    + rewrite (Qtrunc_nonneg x) by exact H. apply Qfloor_le.
    + rewrite (Qtrunc_nonpos x) by exact H. apply Qle_ceiling.
Qed.

(** A sample below full scale is stored without wrapping. *)
Lemma ToInt16_sample (x : Q) :
  (-1 <= x < 1)%Q -> ToInt16 (x * 32768) = Qtrunc (x * 32768).
Proof.
  intros [Hlo Hhi].
  destruct (Qtrunc_close (x * 32768)) as [Habs [Hp Hn]].
  apply Qabs_Qlt_condition in Habs.
  assert (B : (inject_Z (-32769) < inject_Z (Qtrunc (x * 32768))
               /\ inject_Z (Qtrunc (x * 32768)) < inject_Z 32768)%Q).
  { change (inject_Z (-32769)) with (-32769 # 1)%Q.
    change (inject_Z 32768) with 32768%Q.
    revert Habs Hp Hn. generalize (inject_Z (Qtrunc (x * 32768))).
    intros t Habs Hp Hn. split; [lra|].
    destruct (Qlt_le_dec (x * 32768) 0%Q) as [Hy|Hy]; [lra|].
    specialize (Hp Hy). lra. }
  destruct B as [B1 B2]. rewrite <- Zlt_Qlt in B1, B2.
  unfold ToInt16.
  destruct (Z.leb_spec 32768 (Qtrunc (x * 32768) mod 65536)); lia.
Qed.

(** The quantisation error of one sample below full scale. *)
Lemma sample_error (x : Q) :
  (-1 <= x < 1)%Q ->
  (Qabs (inject_Z (ToInt16 (x * 32768)) / 32768 - x) < 1 # 32768)%Q.
Proof.
  intros Hx. rewrite (ToInt16_sample x Hx).
  destruct (Qtrunc_close (x * 32768)) as [Habs _].
  apply Qabs_Qlt_condition in Habs. apply Qabs_Qlt_condition.
  unfold Qdiv. change (/ 32768)%Q with (1 # 32768)%Q.
  revert Habs. generalize (inject_Z (Qtrunc (x * 32768))). intros t Habs.
  split; lra.
Qed.

Lemma samples_channel (zs : list Z) :
  map (fun i => sample_at zs (i * 1 + 0)) (seq 0 (List.length zs)) =
  map (fun z => Num (inject_Z z / 32768)) zs.
Proof.
  apply nth_error_ext. intros k.
  rewrite !nth_error_map, nth_error_seq.
  destruct (Nat.ltb_spec k (List.length zs)) as [Hk|Hk].
  - cbn [option_map]. unfold sample_at.
    replace (0 + k)%nat with k by lia. replace (k * 1 + 0)%nat with k by lia.
    destruct (nth_error zs k) as [z|] eqn:Ez; [reflexivity|].
    apply nth_error_None in Ez. lia.
  - apply nth_error_None in Hk. now rewrite Hk.
Qed.

(** What comes back from an encoded chunk: every value that
    [createBlobFromAudio] stored, divided by [32768]. *)
Lemma decode_of_encoded (samples : list Q) (rate : Q) :
  samples <> [] ->
  Z.of_nat (List.length samples) < 4294967296 ->
  (8000 <= rate <= 96000)%Q ->
  decodeInboundChunk (data (createBlobFromAudio samples)) rate 1 =
  Ok (mkAudioBuffer 1 (List.length samples) rate
        [map (fun x => Num (inject_Z (ToInt16 (x * 32768)) / 32768)) samples]).
Proof.
  intros Hne Hbig Hrate.
  unfold decodeInboundChunk, createBlobFromAudio. cbn [data].
  rewrite decode_encode. cbn [bind].
  set (int16 := map (fun x => ToInt16 (x * 32768)) samples).
  assert (Hlen : List.length int16 = List.length samples)
    by apply length_map.
  assert (Hhalf : (List.length (Uint8Array_of_Int16Array int16) / 2
                   = List.length samples)%nat).
  { rewrite length_Uint8Array_of_Int16Array, Hlen, Nat.mul_comm.
    apply Nat.div_mul. lia. }
  assert (Hpos : (1 <= List.length samples)%nat).
  { destruct samples; [congruence|cbn; lia]. }
  rewrite decodeAudioData_frames.
  - rewrite Hhalf, Nat.div_1_r. cbn [seq map].
    rewrite int16_pairs_of_Int16Array.
    + rewrite <- Hlen, samples_channel. unfold int16. now rewrite map_map.
    + unfold int16. apply Forall_map, Forall_forall. intros x _.
      apply ToInt16_range.
  - rewrite length_Uint8Array_of_Int16Array, Nat.even_mul. reflexivity.
  - lia.
  - rewrite Hhalf, Nat.div_1_r. exact Hpos.
  - rewrite Hhalf, Nat.div_1_r. exact Hbig.
  - exact Hrate.
Qed.

(** C3, the counterexample: a sample at full scale, [1.0], is stored as
    [-32768] and comes back as [-1.0], an error of [2]; and the chunk of an
    empty sequence does not decode at all. *)
Lemma roundtrip_fails :
  (decodeInboundChunk (data (createBlobFromAudio [1%Q])) 24000 1 =
     Ok (mkAudioBuffer 1 1 24000 [[Num (inject_Z (-32768) / 32768)]])
   /\ ~ (Qabs (inject_Z (-32768) / 32768 - 1) <= 1 # 32768)%Q)
  /\ decodeInboundChunk (data (createBlobFromAudio [])) 24000 1 =
       Throw NotSupportedError.
Proof.
  split; [split|]; try reflexivity.
  intros H. vm_compute in H. now apply H.
Qed.

(** C3, as amended: for a non-empty sequence of samples in [[-1, 1)] the
    decoded chunk has one channel with as many samples, each within less
    than [1/32768] of the original. *)
Theorem roundtrip_below_full_scale (samples : list Q) (rate : Q) :
  samples <> [] ->
  Forall (fun x => -1 <= x < 1)%Q samples ->
  Z.of_nat (List.length samples) < 4294967296 ->
  (8000 <= rate <= 96000)%Q ->
  exists decoded : list Q,
    decodeInboundChunk (data (createBlobFromAudio samples)) rate 1 =
      Ok (mkAudioBuffer 1 (List.length samples) rate [map Num decoded])
    /\ Forall2 (fun x y => Qabs (y - x) < 1 # 32768)%Q samples decoded.
Proof.
  intros Hne Hrange Hbig Hrate.
  exists (map (fun x => inject_Z (ToInt16 (x * 32768)) / 32768)%Q samples).
  split.
  - rewrite decode_of_encoded by assumption. now rewrite map_map.
  - clear Hne Hbig. induction Hrange as [|x l Hx _ IH]; cbn [map]; constructor.
    + now apply sample_error.
    + exact IH.
Qed.

Lemma roundtrip_below_full_scale_witness :
  exists decoded : list Q,
    decodeInboundChunk (data (createBlobFromAudio [1 # 2; -1; -1 # 3; 0]%Q)) 16000 1 =
      Ok (mkAudioBuffer 1 4 16000 [map Num decoded])
    /\ Forall2 (fun x y => Qabs (y - x) < 1 # 32768)%Q
         [1 # 2; -1; -1 # 3; 0]%Q decoded.
Proof.
  apply (roundtrip_below_full_scale [1 # 2; -1; -1 # 3; 0]%Q 16000).
  - discriminate.
  - repeat constructor; unfold Qle, Qlt; cbn; lia.
  - cbn. lia.
  - split; unfold Qle; cbn; lia.
Defined.

(** ** Bond level, mood and memories *)

Lemma processAiInteraction_bond (sentiment : string) (memory : option string)
  (c : Companion) :
  0 <= bondLevel c -> 0 <= bondLevel (processAiInteraction sentiment memory c).
Proof.
  intros Hb. unfold processAiInteraction. cbn [bondLevel].
  destruct (String.eqb sentiment "positive"), (String.eqb sentiment "negative"); lia.
Qed.

Lemma deriveMood_nonneg (b : Z) :
  0 <= b -> deriveMood b <> "Pensive" /\ deriveMood b <> "Concerned".
Proof.
  intros Hb. unfold deriveMood.
  destruct (Z.ltb_spec 5 b); [split; discriminate|].
  destruct (Z.ltb_spec 0 b); [split; discriminate|].
  destruct (Z.ltb_spec b (-5)); [lia|].
  destruct (Z.ltb_spec b 0); [lia|].
  split; discriminate.
Qed.

(** C9: from a bond level that is not negative, no sequence of interactions
    makes it negative (a negative sentiment takes one off and stops at
    zero), and the mood derived from it is then never [Pensive] nor
    [Concerned]. *)
Theorem bond_never_negative (l : list (string * option string)) (c : Companion) :
  0 <= bondLevel c ->
  0 <= bondLevel (interactions l c)
  /\ mood (interactions l c) <> "Pensive"
  /\ mood (interactions l c) <> "Concerned".
Proof.
  intros Hb.
  assert (G : 0 <= bondLevel (interactions l c)).
  { unfold interactions. revert c Hb.
    induction l as [|[sentiment memory] l IH]; intros c Hb; cbn [fold_left fst snd].
    - exact Hb.
    - apply IH. now apply processAiInteraction_bond. }
  split; [exact G|]. now apply deriveMood_nonneg.
Qed.

Lemma bond_never_negative_witness :
  0 <= bondLevel (interactions [("negative", None); ("negative", Some "likes tea");
                                ("positive", None); ("negative", None);
                                ("negative", None)] (mkCompanion 1 []))
  /\ mood (interactions [("negative", None); ("negative", Some "likes tea");
                         ("positive", None); ("negative", None);
                         ("negative", None)] (mkCompanion 1 [])) <> "Pensive"
  /\ mood (interactions [("negative", None); ("negative", Some "likes tea");
                         ("positive", None); ("negative", None);
                         ("negative", None)] (mkCompanion 1 [])) <> "Concerned".
Proof.
  apply (bond_never_negative
           [("negative", None); ("negative", Some "likes tea");
            ("positive", None); ("negative", None); ("negative", None)]
           (mkCompanion 1 [])).
  cbn. lia.
Defined.

Lemma length_slice_last {A : Type} (n : nat) (l : list A) :
  List.length (slice_last n l) = Nat.min n (List.length l).
Proof. unfold slice_last. rewrite length_skipn. lia. Qed.

Lemma processAiInteraction_memories (sentiment : string) (memory : option string)
  (c : Companion) :
  (List.length (memories c) <= 20)%nat ->
  (List.length (memories (processAiInteraction sentiment memory c)) <= 20)%nat.
Proof.
  intros Hm. unfold processAiInteraction. cbn [memories].
  destruct memory as [text|]; [|exact Hm].
  destruct (String.eqb text ""); [exact Hm|].
  rewrite length_slice_last. lia.
Qed.

(** C10: a memory that is appended leaves the last twenty elements of the
    extended list, and from a list of at most twenty memories no sequence
    of interactions makes it longer than twenty. *)
Theorem memories_bounded (l : list (string * option string)) (c : Companion) :
  (List.length (memories c) <= 20)%nat ->
  (List.length (memories (interactions l c)) <= 20)%nat
  /\ forall (sentiment text : string),
       text <> "" ->
       exists dropped : list string,
         memories c ++ [text] =
           dropped ++ memories (processAiInteraction sentiment (Some text) c)
         /\ List.length (memories (processAiInteraction sentiment (Some text) c))
            = Nat.min 20 (S (List.length (memories c))).
Proof.
  intros Hm. split.
  - unfold interactions. revert c Hm.
    induction l as [|[sentiment memory] l IH]; intros c Hm; cbn [fold_left fst snd].
    + exact Hm.
    + apply IH. now apply processAiInteraction_memories.
  - intros sentiment text Htext.
    unfold processAiInteraction. cbn [memories].
    apply String.eqb_neq in Htext. rewrite Htext.
    exists (firstn (List.length (memories c ++ [text]) - 20) (memories c ++ [text])).
    split.
    + unfold slice_last. symmetry. apply firstn_skipn.
    + rewrite length_slice_last, length_app. cbn [List.length]. lia.
Qed.

Lemma memories_bounded_witness :
  (List.length (memories (interactions [("neutral", Some "has a cat")]
                            (mkCompanion 0 (repeat "m" 20)))) <= 20)%nat
  /\ forall (sentiment text : string),
       text <> "" ->
       exists dropped : list string,
         memories (mkCompanion 0 (repeat "m" 20)) ++ [text] =
           dropped ++ memories (processAiInteraction sentiment (Some text)
                                  (mkCompanion 0 (repeat "m" 20)))
         /\ List.length (memories (processAiInteraction sentiment (Some text)
                                     (mkCompanion 0 (repeat "m" 20))))
            = Nat.min 20 (S (List.length (memories (mkCompanion 0 (repeat "m" 20))))).
Proof.
  apply (memories_bounded [("neutral", Some "has a cat")]
           (mkCompanion 0 (repeat "m" 20))).
  cbn. lia.
Defined.

(** ** The live session: tool calls *)

Section ToolCalls.
Context `{Types}.

Lemma includes_In (values : list string) (v : string) :
  includes values (Some v) = true <-> In v values.
Proof.
  unfold includes. rewrite existsb_exists. split.
  - intros (x & Hx & E). apply String.eqb_eq in E. now subst.
  - intros Hv. exists v. split; [exact Hv|apply String.eqb_refl].
Qed.

Lemma dispatch_acknowledges (fc : FunctionCall) (s : Settings) :
  toolResponses (dispatch fc s) = toolResponses s ++ [acknowledgement fc].
Proof.
  unfold dispatch.
  destruct (String.eqb (fc_name fc) "changePersonality").
  - destruct (arg (fc_args fc) "personality") as [p|];
      [destruct (includes Personality_values (Some p))|];
      (match goal with |- context [String.eqb ?a ""] => destruct (String.eqb a "") end);
      reflexivity.
  - destruct (String.eqb (fc_name fc) "changeMode").
    + destruct (arg (fc_args fc) "mode") as [m|];
        [destruct (includes AppMode_values (Some m))|];
        (match goal with |- context [String.eqb ?a ""] => destruct (String.eqb a "") end);
        reflexivity.
    + reflexivity.
Qed.

Lemma dispatch_unrecognised (fc : FunctionCall) (s : Settings) :
  unrecognised fc ->
  currentPersonality (dispatch fc s) = currentPersonality s
  /\ currentMode (dispatch fc s) = currentMode s
  /\ liveActionStatus (dispatch fc s) = liveActionStatus s.
Proof.
  intros [HP HM]. unfold dispatch.
  destruct (String.eqb_spec (fc_name fc) "changePersonality") as [EP|NP].
  - destruct (arg (fc_args fc) "personality") as [p|] eqn:Ep; [|now cbn].
    destruct (includes Personality_values (Some p)) eqn:Ei; [|now cbn].
    apply includes_In in Ei. exfalso. exact (HP EP p eq_refl Ei).
  - destruct (String.eqb_spec (fc_name fc) "changeMode") as [EM|NM]; [|now cbn].
    destruct (arg (fc_args fc) "mode") as [m|] eqn:Em; [|now cbn].
    destruct (includes AppMode_values (Some m)) eqn:Ei; [|now cbn].
    apply includes_In in Ei. exfalso. exact (HM EM m eq_refl Ei).
Qed.

Lemma onToolCall_acknowledges (calls : list FunctionCall) (s : Settings) :
  toolResponses (onToolCall (Some calls) s)
  = toolResponses s ++ map acknowledgement calls.
Proof.
  cbn [onToolCall]. revert s.
  induction calls as [|fc calls IH]; intros s; cbn [fold_left map].
  - now rewrite app_nil_r.
  - rewrite IH, dispatch_acknowledges, <- app_assoc. reflexivity.
Qed.

Lemma onToolCall_unrecognised (calls : list FunctionCall) (s : Settings) :
  Forall unrecognised calls ->
  currentPersonality (onToolCall (Some calls) s) = currentPersonality s
  /\ currentMode (onToolCall (Some calls) s) = currentMode s
  /\ liveActionStatus (onToolCall (Some calls) s) = liveActionStatus s.
Proof.
  cbn [onToolCall]. intros Hcalls. revert s.
  induction Hcalls as [|fc calls Hfc _ IH]; intros s; cbn [fold_left].
  - auto.
  - destruct (IH (dispatch fc s)) as (E1 & E2 & E3).
    destruct (dispatch_unrecognised fc s Hfc) as (F1 & F2 & F3).
    rewrite E1, E2, E3. auto.
Qed.

Lemma onmessage_settings (now : Q) (eager : bool) (m : LiveServerMessage) (s : Live) :
  settings (fst (onmessage now eager m s)) = onToolCall (toolCall m) (settings s).
Proof.
  unfold onmessage. destruct (onAudio _ _ _). reflexivity.
Qed.

Lemma dispatchInbound_answerable (fc : InboundCall) (s : Settings) :
  answerable fc ->
  dispatchInbound fc s = Ok (dispatch (asFunctionCall fc) s).
Proof.
  unfold answerable, dispatchInbound, dispatch, asFunctionCall.
  cbn [fc_name fc_args fc_id]. intros Hfc.
  destruct (call_args fc) as [args|]; cbn [args_get bind].
  - destruct (String.eqb (call_name fc) "changePersonality").
    + destruct (arg args "personality") as [p|];
        [destruct (includes Personality_values (Some p))|]; reflexivity.
    + destruct (String.eqb (call_name fc) "changeMode"); [|reflexivity].
      destruct (arg args "mode") as [m|];
        [destruct (includes AppMode_values (Some m))|]; reflexivity.
  - destruct (Hfc eq_refl) as [NP NM].
    apply String.eqb_neq in NP, NM. rewrite NP, NM. reflexivity.
Qed.

Lemma dispatchInbound_without_args (fc : InboundCall) (s : Settings) :
  call_args fc = None ->
  call_name fc = "changePersonality" \/ call_name fc = "changeMode" ->
  dispatchInbound fc s = Throw TypeError.
Proof.
  intros Hargs [Hname|Hname]; unfold dispatchInbound; rewrite Hargs, Hname;
    reflexivity.
Qed.

Lemma toolCallLoop_answerable (calls : list InboundCall) (s : Settings) :
  Forall answerable calls ->
  toolCallLoop calls s = (onToolCall (Some (map asFunctionCall calls)) s, None).
Proof.
  intros Hcalls. revert s. cbn [onToolCall].
  induction Hcalls as [|fc calls Hfc _ IH]; intros s;
    cbn [toolCallLoop map fold_left]; [reflexivity|].
  rewrite (dispatchInbound_answerable fc s Hfc). apply IH.
Qed.

Lemma toolCallLoop_app (before rest : list InboundCall) (s : Settings) :
  Forall answerable before ->
  toolCallLoop (before ++ rest) s
  = toolCallLoop rest (onToolCall (Some (map asFunctionCall before)) s).
Proof.
  intros Hcalls. revert s. cbn [onToolCall].
  induction Hcalls as [|fc calls Hfc _ IH]; intros s;
    cbn [toolCallLoop map fold_left app]; [reflexivity|].
  rewrite (dispatchInbound_answerable fc s Hfc). apply IH.
Qed.

(** C4: the loop answers the calls of an inbound tool message one by one,
    each with its id, its name and the result ["ok"], and calls whose
    argument is not recognised leave the personality and the mode as they
    were; but a call to one of the two tools that comes without [args]
    makes the handler throw a [TypeError] where it reads the argument: that
    call and the calls after it in the message are not answered. *)
Theorem call_without_args_unanswered (before after : list InboundCall)
  (fc : InboundCall) (s : Settings) :
  Forall answerable before ->
  call_args fc = None ->
  call_name fc = "changePersonality" \/ call_name fc = "changeMode" ->
  (snd (toolCallLoop before s) = None
   /\ toolResponses (fst (toolCallLoop before s))
      = toolResponses s ++ map acknowledge before
   /\ (Forall (fun c => unrecognised (asFunctionCall c)) before ->
       currentPersonality (fst (toolCallLoop before s)) = currentPersonality s
       /\ currentMode (fst (toolCallLoop before s)) = currentMode s))
  /\ snd (toolCallLoop (before ++ fc :: after) s) = Some TypeError
  /\ toolResponses (fst (toolCallLoop (before ++ fc :: after) s))
     = toolResponses s ++ map acknowledge before.
Proof.
  intros Hbefore Hargs Hname.
  assert (Hack : toolResponses (onToolCall (Some (map asFunctionCall before)) s)
                 = toolResponses s ++ map acknowledge before).
  { rewrite onToolCall_acknowledges, map_map. reflexivity. }
  split; [split; [|split]|split].
  - now rewrite toolCallLoop_answerable.
  - now rewrite toolCallLoop_answerable.
  - intros Hun. rewrite toolCallLoop_answerable by assumption. cbn [fst].
    destruct (onToolCall_unrecognised (map asFunctionCall before) s) as (E1 & E2 & _);
      [|auto].
    now apply Forall_map.
  - rewrite toolCallLoop_app by assumption. cbn [toolCallLoop].
    now rewrite dispatchInbound_without_args.
  - rewrite toolCallLoop_app by assumption. cbn [toolCallLoop].
    now rewrite dispatchInbound_without_args.
Qed.

(** The value left out of the [enum] offered to the model is not in it. *)
Lemma AIDiary_not_offered : ~ In AppMode_AIDiary changeMode_enum.
Proof.
  unfold changeMode_enum. rewrite filter_In. intros [_ E].
  now rewrite String.eqb_refl in E.
Qed.

(** C8, as amended: the declaration of [changeMode] leaves the diary mode
    out of the values offered to the model, but the dispatcher checks the
    argument against all of [AppMode]; a call that names the diary mode is
    accepted and the diary mode becomes the mode. *)
Theorem reserved_mode_accepted (now : Q) (eager : bool) (id : string) (s : Live) :
  In AppMode_AIDiary AppMode_values ->
  ~ In AppMode_AIDiary changeMode_enum
  /\ currentMode
       (settings
          (fst (onmessage now eager
                  (tool_message
                     [mkFunctionCall id "changeMode" [("mode", AppMode_AIDiary)]])
                  s)))
     = AppMode_AIDiary.
Proof.
  intros Hin. split; [apply AIDiary_not_offered|].
  rewrite onmessage_settings. cbn [tool_message toolCall onToolCall fold_left].
  unfold dispatch. cbn [fc_name fc_args arg].
  change (String.eqb "changeMode" "changePersonality") with false.
  change (String.eqb "changeMode" "changeMode") with true.
  change (String.eqb "mode" "mode") with true. cbn iota.
  apply includes_In in Hin. rewrite Hin.
  destruct (String.eqb _ ""); reflexivity.
Qed.
End ToolCalls.

(** A message of three calls: the second comes without [args]. *)
Lemma call_without_args_unanswered_witness :
  let s := settings (handleToggleLiveMode (@initial sample_types)) in
  let first := mkInboundCall "call-1" "changeMode" (Some [("mode", "InvalidValue")]) in
  let second := mkInboundCall "call-2" "changeMode" None in
  let third := mkInboundCall "call-3" "changePersonality" (Some [("personality", "Sage")]) in
  (snd (@toolCallLoop sample_types [first] s) = None
   /\ toolResponses (fst (@toolCallLoop sample_types [first] s))
      = [mkFunctionResponse "call-1" "changeMode" "ok"]
   /\ currentPersonality (fst (@toolCallLoop sample_types [first] s)) = "Nihara"
   /\ currentMode (fst (@toolCallLoop sample_types [first] s)) = "Chat")
  /\ snd (@toolCallLoop sample_types [first; second; third] s) = Some TypeError
  /\ toolResponses (fst (@toolCallLoop sample_types [first; second; third] s))
     = [mkFunctionResponse "call-1" "changeMode" "ok"].
Proof.
  intros s first second third.
  destruct (@call_without_args_unanswered sample_types [first] [third] second s)
    as ((Hnone & Hack & Hsame) & Hthrown & Hleft).
  - constructor; [|constructor]. intros E. discriminate E.
  - reflexivity.
  - right. reflexivity.
  - split; [|split; [exact Hthrown|exact Hleft]].
    split; [exact Hnone|]. split; [exact Hack|]. apply Hsame.
    constructor; [|constructor]. split; cbn.
    + discriminate.
    + intros _ v Hv. injection Hv as <-.
      intros [E|[E|[E|[E|[E|[E|[E|[]]]]]]]]; discriminate.
Defined.

(** C8, the counterexample: in a session in chat mode, a [changeMode] call
    that names the diary mode changes the mode. *)
Lemma reserved_mode_changes_mode :
  let s := handleToggleLiveMode (@initial sample_types) in
  let s' :=
    fst (@onmessage sample_types 0 true
           (tool_message [mkFunctionCall "call-8" "changeMode" [("mode", "AI Diary")]])
           s) in
  @AppMode_AIDiary sample_types = "AI Diary"
  /\ ~ In "AI Diary" (@changeMode_enum sample_types)
  /\ currentMode (settings s) = "Chat"
  /\ currentMode (settings s') = "AI Diary"
  /\ currentMode (settings s') <> currentMode (settings s).
Proof.
  cbv zeta. split; [reflexivity|]. split; [apply (@AIDiary_not_offered sample_types)|].
  split; [reflexivity|]. split; [reflexivity|]. discriminate.
Qed.

Lemma reserved_mode_accepted_witness :
  ~ In "AI Diary" (@changeMode_enum sample_types)
  /\ currentMode
       (settings
          (fst (@onmessage sample_types (1 # 2) false
                  (tool_message [mkFunctionCall "call-9" "changeMode" [("mode", "AI Diary")]])
                  (handleToggleLiveMode (@initial sample_types)))))
     = "AI Diary".
Proof.
  apply (@reserved_mode_accepted sample_types (1 # 2)%Q false "call-9"
           (handleToggleLiveMode (@initial sample_types))).
  cbn. tauto.
Defined.

(** ** The live session: transcripts *)

Section Transcripts.
Context `{Types}.

Lemma onmessage_captions (now : Q) (eager : bool) (m : LiveServerMessage) (s : Live) :
  captions (fst (onmessage now eager m s)) = onTranscript eager m (captions s).
Proof.
  unfold onmessage. destruct (onAudio _ _ _). reflexivity.
Qed.

(** What a render shows is decided by the last pending update. *)
Lemma render_last (shown ref : Transcript) (pending : list TranscriptUpdate)
  (u : TranscriptUpdate) :
  liveTranscript (render (mkCaptions shown (pending ++ [u]) ref))
  = apply_update ref shown u.
Proof.
  unfold render. cbn [liveTranscript pendingTranscript liveTranscriptRef].
  rewrite fold_left_app. cbn [fold_left]. now destruct u.
Qed.

(** The fragments of a message are appended to the ref, the user's to
    [user] and the model's to [assistant]. *)
Lemma fragments_appended (eager : bool) (m : LiveServerMessage) (c : Captions) :
  turnComplete m = false ->
  liveTranscriptRef (onTranscript eager m c)
  = mkTranscript (append_to (inputTranscription m) (user (liveTranscriptRef c)))
                 (append_to (outputTranscription m) (assistant (liveTranscriptRef c))).
Proof. intros E. unfold onTranscript. now rewrite E. Qed.

(** Turn-complete, when React runs the function at the call: the next
    render shows what was accumulated, and the ref is empty again. *)
Lemma turn_complete_eager (m : LiveServerMessage) (c : Captions) :
  turnComplete m = true ->
  liveTranscript (render (onTranscript true m c))
  = mkTranscript (append_to (inputTranscription m) (user (liveTranscriptRef c)))
                 (append_to (outputTranscription m) (assistant (liveTranscriptRef c)))
  /\ liveTranscriptRef (onTranscript true m c) = mkTranscript "" "".
Proof.
  intros E. unfold onTranscript. rewrite E. split; [|reflexivity].
  now rewrite render_last.
Qed.

(** Turn-complete, when React keeps the function for the next render: by
    then the ref has been emptied, and the render shows two empty
    strings, whatever was accumulated. *)
Lemma turn_complete_queued (m : LiveServerMessage) (c : Captions) :
  turnComplete m = true ->
  liveTranscript (render (onTranscript false m c)) = mkTranscript "" ""
  /\ liveTranscriptRef (onTranscript false m c) = mkTranscript "" "".
Proof.
  intros E. unfold onTranscript. rewrite E. split; [|reflexivity].
  now rewrite render_last.
Qed.

(** C5, on the code: the fragments ["Hel"], ["Hi"], ["lo "] leave
    [{user: "Hi", assistant: "Hello "}] in the ref.  Turn-complete empties
    the ref; the snapshot it publishes is built by a function that reads
    the ref when React runs it.  Run at the call it gives
    [{user: "Hi", assistant: "Hello "}]; kept for the next render, which
    is what React does while the component has an update pending, it
    gives [{user: "", assistant: ""}]. *)
Theorem turn_snapshot_reads_emptied_ref :
  let fragments :=
    [(0%Q, true, output_message "Hel"); (0%Q, true, input_message "Hi");
     (0%Q, true, output_message "lo ")] in
  let s := handle_all fragments (handleToggleLiveMode initial) in
  liveTranscriptRef (captions s) = mkTranscript "Hi" "Hello "
  /\ liveTranscriptRef (captions (handle s (0%Q, false, turn_complete_message)))
     = mkTranscript "" ""
  /\ liveTranscript (render (captions (handle s (0%Q, false, turn_complete_message))))
     = mkTranscript "" ""
  /\ liveTranscript (render (captions (handle s (0%Q, true, turn_complete_message))))
     = mkTranscript "Hi" "Hello ".
Proof. repeat split. Qed.
End Transcripts.

(** ** The live session: playback *)

Lemma Qmax_left (next now : Q) : (now <= next)%Q -> Qmax next now = next.
Proof.
  intros Hle. unfold Qmax, GenericMinMax.gmax.
  destruct (Qcompare_spec next now) as [E|L|G]; try reflexivity.
  exfalso. exact (Qlt_not_le _ _ L Hle).
Qed.

Lemma Qmax_zero (now : Q) : (0 <= now)%Q -> (Qmax 0 now == now)%Q.
Proof. intros Hnow. now apply Q.max_r. Qed.

Section Playback.
Context `{Types}.

Lemma onmessage_playback (now : Q) (eager : bool) (m : LiveServerMessage) (s : Live) :
  playback (fst (onmessage now eager m s))
  = fst (onAudio now (audioData m)
           (onTurnComplete m
              (if interrupted m then onInterrupted (playback s) else playback s))).
Proof.
  unfold onmessage. destruct (onAudio _ _ _). reflexivity.
Qed.

Lemma truthy_Some (text : string) : text <> "" -> truthy (Some text) = Some text.
Proof.
  intros Ht. unfold truthy. apply String.eqb_neq in Ht. now rewrite Ht.
Qed.

(** One decoded chunk: it starts at [max(nextStartTime, now)], the next
    start moves to its end, and its source joins the active set. *)
Lemma chunk_scheduled (now : Q) (base64 : string) (buffer : AudioBuffer)
  (p : Playback) :
  base64 <> "" ->
  decodeInboundChunk base64 24000 1 = Ok buffer ->
  onAudio now (Some base64) p
  = (mkPlayback speaking
       (set_add (List.length (started p)) (audioSources p))
       (Qmax (nextStartTime p) now + duration buffer)%Q
       (started p
          ++ [mkPlaying (List.length (started p)) (Qmax (nextStartTime p) now)
                (duration buffer)])
       (stopped p) (ended p),
     None).
Proof.
  intros Hne Hdec. unfold onAudio. now rewrite (truthy_Some _ Hne), Hdec.
Qed.

Lemma onTurnComplete_schedule (m : LiveServerMessage) (p : Playback) :
  audioSources (onTurnComplete m p) = audioSources p
  /\ nextStartTime (onTurnComplete m p) = nextStartTime p
  /\ started (onTurnComplete m p) = started p
  /\ stopped (onTurnComplete m p) = stopped p
  /\ ended (onTurnComplete m p) = ended p.
Proof.
  unfold onTurnComplete. destruct (turnComplete m); [|auto].
  destruct (audioSources p) eqn:E; cbn; auto.
Qed.

(** C1: an inbound message with the interruption flag stops every active
    source, empties the active set and sets the next start to zero,
    whatever was scheduled; the chunk of the next message then starts at
    [max(0, now)], which is the reading of the clock at its arrival: at
    offset zero from the clock, not behind the discarded backlog. *)
Theorem interruption_flushes (now1 now2 : Q) (e1 e2 : bool)
  (m1 m2 : LiveServerMessage) (base64 : string) (buffer : AudioBuffer) (s : Live) :
  interrupted m1 = true ->
  truthy (audioData m1) = None ->
  interrupted m2 = false ->
  audioData m2 = Some base64 ->
  base64 <> "" ->
  decodeInboundChunk base64 24000 1 = Ok buffer ->
  (0 <= now2)%Q ->
  let s1 := fst (onmessage now1 e1 m1 s) in
  let s2 := fst (onmessage now2 e2 m2 s1) in
  audioSources (playback s1) = []
  /\ stopped (playback s1) = stopped (playback s) ++ audioSources (playback s)
  /\ nextStartTime (playback s1) = 0%Q
  /\ exists t : Q,
       started (playback s2)
       = started (playback s)
           ++ [mkPlaying (List.length (started (playback s))) t (duration buffer)]
       /\ t = Qmax 0 now2
       /\ (t == now2)%Q
       /\ (t - now2 == 0)%Q.
Proof.
  intros Hi1 Ha1 Hi2 Ha2 Hne Hdec Hnow s1 s2.
  assert (E1 : playback s1 = onTurnComplete m1 (onInterrupted (playback s))).
  { unfold s1. rewrite onmessage_playback, Hi1. unfold onAudio. now rewrite Ha1. }
  destruct (onTurnComplete_schedule m1 (onInterrupted (playback s)))
    as (Q1 & Q2 & Q3 & Q4 & _).
  rewrite <- E1 in Q1, Q2, Q3, Q4. cbn in Q1, Q2, Q3, Q4.
  repeat split; try assumption.
  exists (Qmax 0 now2).
  assert (E2 : playback s2
               = fst (onAudio now2 (Some base64) (onTurnComplete m2 (playback s1)))).
  { unfold s2. now rewrite onmessage_playback, Hi2, Ha2. }
  destruct (onTurnComplete_schedule m2 (playback s1)) as (R1 & R2 & R3 & _).
  rewrite E2, (chunk_scheduled _ _ buffer) by assumption.
  cbn [fst started]. rewrite R2, R3, Q2, Q3.
  repeat split.
  - now apply Qmax_zero.
  - rewrite (Qmax_zero now2 Hnow). ring.
Qed.
End Playback.

Lemma interruption_flushes_witness :
  (0 < nextStartTime (playback backlog_state))%Q
  /\ audioSources (playback backlog_state) = [0; 1]%nat
  /\ let s1 := fst (@onmessage sample_types (1 # 1000) true interrupted_message
                      backlog_state) in
     let s2 := fst (@onmessage sample_types 3 true (audio_message (silence 2)) s1) in
     audioSources (playback s1) = []
     /\ stopped (playback s1)
        = stopped (playback backlog_state) ++ audioSources (playback backlog_state)
     /\ nextStartTime (playback s1) = 0%Q
     /\ exists t : Q,
          started (playback s2)
          = started (playback backlog_state)
              ++ [mkPlaying (List.length (started (playback backlog_state))) t
                    (duration (mkAudioBuffer 1 2 24000
                                 [[Num (inject_Z 0 / 32768); Num (inject_Z 0 / 32768)]]))]
          /\ t = Qmax 0 3
          /\ (t == 3)%Q
          /\ (t - 3 == 0)%Q.
Proof.
  split; [reflexivity|]. split; [reflexivity|].
  apply (@interruption_flushes sample_types (1 # 1000)%Q 3%Q true true
           interrupted_message (audio_message (silence 2)) (silence 2)
           (mkAudioBuffer 1 2 24000
              [[Num (inject_Z 0 / 32768); Num (inject_Z 0 / 32768)]])
           backlog_state).
  - reflexivity.
  - reflexivity.
  - reflexivity.
  - reflexivity.
  - discriminate.
  - reflexivity.
  - unfold Qle. cbn. lia.
Defined.

(** *** Scheduling a run of chunks *)

Lemma scheduled_on_time (k : nat) (next : Q) (clocks durations : list Q) :
  List.length clocks = List.length durations ->
  on_time next clocks durations ->
  scheduled k next clocks durations = back_to_back k next durations.
Proof.
  revert k next durations.
  induction clocks as [|now clocks IH]; intros k next [|d durations] Hlen Hon;
    cbn in Hlen; try discriminate; cbn [scheduled back_to_back]; [reflexivity|].
  destruct Hon as [Hnow Hrest].
  rewrite (Qmax_left next now Hnow). f_equal.
  apply IH; [congruence|exact Hrest].
Qed.

Lemma back_to_back_nth (durations : list Q) (k : nat) (t : Q) (i : nat) (pl : Playing) :
  nth_error (back_to_back k t durations) i = Some pl ->
  (startAt pl == t + sumQ (firstn i durations))%Q
  /\ nth_error durations i = Some (playFor pl)
  /\ source pl = (k + i)%nat.
Proof.
  revert k t i.
  induction durations as [|d durations IH]; intros k t [|i] Hnth;
    cbn [back_to_back nth_error] in Hnth; try discriminate.
  - injection Hnth as <-. cbn. repeat split; [ring|lia].
  - destruct (IH _ _ _ Hnth) as (E1 & E2 & E3).
    cbn [firstn sumQ fold_right nth_error]. fold (sumQ (firstn i durations)).
    repeat split; [rewrite E1; ring|exact E2|lia].
Qed.

Section Schedule.
Context `{Types}.

Lemma handle_chunk (c : Q * bool * LiveServerMessage) (buffer : AudioBuffer) (s : Live) :
  carries c buffer ->
  started (playback (handle s c))
  = started (playback s)
      ++ [mkPlaying (List.length (started (playback s)))
            (Qmax (nextStartTime (playback s)) (fst (fst c))) (duration buffer)]
  /\ nextStartTime (playback (handle s c))
     = (Qmax (nextStartTime (playback s)) (fst (fst c)) + duration buffer)%Q.
Proof.
  destruct c as [[now eager] m]. intros [Hi (base64 & Ha & Hne & Hdec)].
  cbn [fst snd] in *. unfold handle.
  destruct (onTurnComplete_schedule m (playback s)) as (_ & R2 & R3 & _).
  rewrite onmessage_playback, Hi, Ha, (chunk_scheduled _ _ buffer) by assumption.
  cbn [fst started nextStartTime]. now rewrite R2, R3.
Qed.

(** Whatever the clock reads, the chunks of a run are scheduled one after
    the other, each at the later of the next start and the clock. *)
Lemma run_scheduled (chunks : list (Q * bool * LiveServerMessage))
  (buffers : list AudioBuffer) (s : Live) :
  Forall2 carries chunks buffers ->
  started (playback (handle_all chunks s))
  = started (playback s)
      ++ scheduled (List.length (started (playback s)))
           (nextStartTime (playback s))
           (map (fun c => fst (fst c)) chunks) (map duration buffers).
Proof.
  intros Hrun. revert s.
  induction Hrun as [|c buffer chunks buffers Hc _ IH]; intros s;
    cbn [handle_all fold_left map scheduled].
  - now rewrite app_nil_r.
  - fold (handle_all chunks (handle s c)).
    destruct (handle_chunk c buffer s Hc) as [E1 E2].
    rewrite IH, E1, E2, length_app, <- app_assoc. cbn [List.length app].
    now rewrite Nat.add_1_r.
Qed.

(** C2, as amended: the chunks of a run delivered without an interruption
    are scheduled at [max(nextStartTime, now)], each moving the next start
    to its end; and when every chunk arrives no later than the end of what
    is scheduled before it, the [i]-th chunk starts at the next start of
    the beginning plus the durations of the chunks before it. *)
Theorem gapless_when_on_time (chunks : list (Q * bool * LiveServerMessage))
  (buffers : list AudioBuffer) (s : Live) :
  Forall2 carries chunks buffers ->
  started (playback (handle_all chunks s))
  = started (playback s)
      ++ scheduled (List.length (started (playback s)))
           (nextStartTime (playback s))
           (map (fun c => fst (fst c)) chunks) (map duration buffers)
  /\ (on_time (nextStartTime (playback s))
        (map (fun c => fst (fst c)) chunks) (map duration buffers) ->
      forall (i : nat) (pl : Playing),
        nth_error (started (playback (handle_all chunks s)))
          (List.length (started (playback s)) + i) = Some pl ->
        (startAt pl
         == nextStartTime (playback s) + sumQ (firstn i (map duration buffers)))%Q
        /\ nth_error (map duration buffers) i = Some (playFor pl)).
Proof.
  intros Hrun. split; [now apply run_scheduled|].
  intros Hon i pl Hnth.
  rewrite (run_scheduled _ _ _ Hrun), scheduled_on_time in Hnth.
  - rewrite nth_error_app2 in Hnth by lia.
    replace (List.length (started (playback s)) + i
             - List.length (started (playback s)))%nat with i in Hnth by lia.
    destruct (back_to_back_nth _ _ _ _ _ Hnth) as (E1 & E2 & _). auto.
  - rewrite !length_map. eapply Forall2_length; eauto.
  - exact Hon.
Qed.
End Schedule.

(** C2, the counterexample: after a chunk of two frames at clock zero, a
    chunk that arrives at clock [5] starts at [5], not at the end of the
    first one. *)
Lemma late_chunk_leaves_gap :
  let s0 := handleToggleLiveMode (@initial sample_types) in
  let s := @handle_all sample_types
             [(0%Q, true, audio_message (silence 2));
              (5%Q, true, audio_message (silence 2))] s0 in
  nextStartTime (playback s0) = 0%Q
  /\ started (playback s)
     = [mkPlaying 0 0 (inject_Z 2 / 24000); mkPlaying 1 5 (inject_Z 2 / 24000)]
  /\ ~ (5 == 0 + sumQ [inject_Z 2 / 24000])%Q.
Proof.
  repeat split. intros E. vm_compute in E. discriminate.
Qed.

Lemma gapless_when_on_time_witness :
  let chunks :=
    [(0%Q, true, audio_message (silence 2));
     ((1 # 24000)%Q, true, audio_message (silence 3))] in
  let buffers :=
    [mkAudioBuffer 1 2 24000 [[Num (inject_Z 0 / 32768); Num (inject_Z 0 / 32768)]];
     mkAudioBuffer 1 3 24000
       [[Num (inject_Z 0 / 32768); Num (inject_Z 0 / 32768); Num (inject_Z 0 / 32768)]]] in
  let s := handleToggleLiveMode (@initial sample_types) in
  started (playback (@handle_all sample_types chunks s))
  = started (playback s)
      ++ scheduled (List.length (started (playback s))) (nextStartTime (playback s))
           (map (fun c => fst (fst c)) chunks) (map duration buffers)
  /\ forall (i : nat) (pl : Playing),
       nth_error (started (playback (@handle_all sample_types chunks s)))
         (List.length (started (playback s)) + i) = Some pl ->
       (startAt pl
        == nextStartTime (playback s) + sumQ (firstn i (map duration buffers)))%Q
       /\ nth_error (map duration buffers) i = Some (playFor pl).
Proof.
  intros chunks buffers s.
  destruct (@gapless_when_on_time sample_types chunks buffers s) as [Hsched Hgapless].
  - constructor; [|constructor; [|constructor]].
    + split; [reflexivity|]. exists (silence 2).
      split; [reflexivity|]. split; [discriminate|reflexivity].
    + split; [reflexivity|]. exists (silence 3).
      split; [reflexivity|]. split; [discriminate|reflexivity].
  - split; [exact Hsched|]. apply Hgapless.
    cbn. repeat split; unfold Qle; cbn; lia.
Defined.

(** *** A turn played to its end *)

Lemma silence_decodes (n : Z) :
  1 <= n < 4294967296 ->
  silence n <> ""
  /\ exists buffer : AudioBuffer,
       decodeInboundChunk (silence n) 24000 1 = Ok buffer
       /\ duration buffer = (inject_Z n / 24000)%Q.
Proof.
  intros Hn.
  assert (Hlen : (List.length (repeat x00 (Z.to_nat (2 * n))) / 2 = Z.to_nat n)%nat).
  { rewrite repeat_length.
    replace (Z.to_nat (2 * n)) with (Z.to_nat n * 2)%nat by lia.
    apply Nat.div_mul. lia. }
  assert (Hdec : decode (silence n) = Ok (repeat x00 (Z.to_nat (2 * n))))
    by apply decode_encode.
  split.
  - intros E. rewrite E in Hdec.
    replace (Z.to_nat (2 * n)) with (S (S (Z.to_nat (2 * n - 2)))) in Hdec by lia.
    change (decode "") with (Ok (@nil byte)) in Hdec.
    cbn [repeat] in Hdec. discriminate.
  - eexists. unfold decodeInboundChunk. rewrite Hdec. cbn [bind].
    rewrite decodeAudioData_frames.
    + split; [reflexivity|]. unfold duration.
      cbn [length sampleRate]. rewrite Hlen, Nat.div_1_r, Z2Nat.id by lia.
      reflexivity.
    + rewrite repeat_length.
      replace (Z.to_nat (2 * n)) with (2 * Z.to_nat n)%nat by lia.
      rewrite Nat.even_mul. reflexivity.
    + lia.
    + rewrite Hlen, Nat.div_1_r. lia.
    + rewrite Hlen, Nat.div_1_r. lia.
    + split; unfold Qle; cbn; lia.
Qed.

Section Turn.
Context `{Types}.

(** The handler on a message that carries only a chunk of silence. *)
Lemma onmessage_silence (now : Q) (eager : bool) (n : Z) (s : Live) :
  1 <= n < 4294967296 ->
  fst (onmessage now eager (audio_message (silence n)) s)
  = mkLive (isLive s) (settings s)
      (onTranscript eager (audio_message (silence n)) (captions s))
      (mkPlayback speaking
         (set_add (List.length (started (playback s))) (audioSources (playback s)))
         (Qmax (nextStartTime (playback s)) now + inject_Z n / 24000)%Q
         (started (playback s)
            ++ [mkPlaying (List.length (started (playback s)))
                  (Qmax (nextStartTime (playback s)) now)
                  (inject_Z n / 24000)%Q])
         (stopped (playback s)) (ended (playback s))).
Proof.
  intros Hn.
  destruct (silence_decodes n Hn) as (Hne & buffer & Hdec & Hdur).
  unfold onmessage. cbn [audio_message interrupted toolCall turnComplete audioData
                           onToolCall onTurnComplete].
  rewrite (chunk_scheduled _ _ buffer _ Hne Hdec), Hdur. reflexivity.
Qed.

Lemma play_cons (k : nat) (now : Q) (eager : bool) (m : LiveServerMessage)
  (rest : list (Q * bool * LiveServerMessage)) (s : Live) :
  play k ((now, eager, m) :: rest) s
  = fst (run_ended (due (Some now) (playback s)) s)
      ++ (Inbound k,
          fst (onmessage now eager m (snd (run_ended (due (Some now) (playback s)) s))))
      :: play (S k) rest
           (fst (onmessage now eager m
                   (snd (run_ended (due (Some now) (playback s)) s)))).
Proof. cbn [play]. destruct (run_ended _ _). reflexivity. Qed.

Lemma onmessage_turn_complete (now : Q) (eager : bool) (s : Live) :
  fst (onmessage now eager turn_complete_message s)
  = mkLive (isLive s) (settings s)
      (onTranscript eager turn_complete_message (captions s))
      (onTurnComplete turn_complete_message (playback s)).
Proof. reflexivity. Qed.

Lemma play_nil (k : nat) (s : Live) :
  play k [] s = fst (run_ended (due None (playback s)) s).
Proof. reflexivity. Qed.

Ltac evaluate :=
  cbn [run_ended due filter map mem existsb negb andb orb fst snd playback
       started ended stopped source startAt playFor with_playback onended
       set_delete set_add audioSources liveStatus nextStartTime List.length app
       Nat.eqb handleToggleLiveMode initial isLive setLiveStatus settings captions
       onTurnComplete turnComplete turn_complete_message].

Ltac decide_due :=
  match goal with
  | |- context [Qle_bool ?a ?b] =>
      let E := fresh "E" in
      destruct (Qle_bool a b) eqn:E;
      [apply Qle_bool_iff in E
      |apply not_true_iff_false in E; rewrite Qle_bool_iff in E];
      try (exfalso; lra)
  end.

(** C6: a session is opened, three chunks of 1.0 s, 0.5 s and 0.2 s
    arrive back to back (each before what is scheduled so far has played
    to its end) and a turn-complete message follows at any later time.
    The status changes twice: to [speaking] with the first chunk, and to
    [listening] in the [ended] listener of the third source.  So there is
    exactly one change from speaking to listening, when the last chunk
    has played, and none on receipt of the turn-complete message. *)
Theorem one_transition_after_last_chunk (t1 t2 t3 t4 : Q) (e1 e2 e3 e4 : bool) :
  (0 <= t1)%Q -> (t1 <= t2)%Q -> (t2 <= t3)%Q -> (t3 <= t4)%Q ->
  (t2 < t1 + 1)%Q -> (t3 < t1 + (3 # 2))%Q ->
  let trace :=
    play 0 [(t1, e1, audio_message (silence 24000));
            (t2, e2, audio_message (silence 12000));
            (t3, e3, audio_message (silence 4800));
            (t4, e4, turn_complete_message)]
      (handleToggleLiveMode initial) in
  transitions listening trace
  = [(Inbound 0, listening, speaking); (SourceEnded 2, speaking, listening)]
  /\ filter speaking_to_listening (transitions listening trace)
     = [(SourceEnded 2, speaking, listening)].
Proof.
  intros H0 H12 H23 H34 B2 B3 trace.
  assert (G : transitions listening trace
              = [(Inbound 0, listening, speaking);
                 (SourceEnded 2, speaking, listening)]);
    [|rewrite G; split; reflexivity].
  unfold trace. clear trace.
  pose proof (Qmax_zero t1 H0) as A1.
  rewrite play_cons. evaluate. rewrite onmessage_silence by lia. evaluate.
  change (inject_Z 24000 / 24000)%Q with (24000 # 24000)%Q.
  revert A1. generalize (Qmax 0 t1). intros a1 A1.
  rewrite play_cons. evaluate. decide_due. evaluate.
  rewrite onmessage_silence by lia. evaluate.
  change (inject_Z 12000 / 24000)%Q with (12000 # 24000)%Q.
  rewrite (Qmax_left (a1 + (24000 # 24000)) t2) by lra.
  rewrite play_cons. evaluate. repeat decide_due; evaluate;
    rewrite onmessage_silence by lia; evaluate;
    change (inject_Z 4800 / 24000)%Q with (4800 # 24000)%Q;
    rewrite (Qmax_left (a1 + (24000 # 24000) + (12000 # 24000)) t3) by lra;
    rewrite play_cons; evaluate; repeat decide_due; evaluate;
    rewrite onmessage_turn_complete; evaluate; rewrite play_nil; evaluate;
    reflexivity.
Qed.
End Turn.

Lemma one_transition_after_last_chunk_witness :
  let trace :=
    @play sample_types 0
      [(0%Q, true, audio_message (silence 24000));
       ((1 # 10)%Q, true, audio_message (silence 12000));
       ((2 # 10)%Q, true, audio_message (silence 4800));
       ((3 # 10)%Q, true, turn_complete_message)]
      (handleToggleLiveMode (@initial sample_types)) in
  transitions listening trace
  = [(Inbound 0, listening, speaking); (SourceEnded 2, speaking, listening)]
  /\ filter speaking_to_listening (transitions listening trace)
     = [(SourceEnded 2, speaking, listening)].
Proof.
  apply (@one_transition_after_last_chunk sample_types
           0%Q (1 # 10)%Q (2 # 10)%Q (3 # 10)%Q true true true true);
    unfold Qle, Qlt; cbn; lia.
Defined.

(** * Further properties of the code *)

(** ** The wire format *)

(** X1: [decode] undoes [encode] on every byte array. *)
Theorem decode_undoes_encode (bytes : list byte) :
  decode (encode bytes) = Ok bytes.
Proof. apply decode_encode. Qed.

Lemma length_string_of_list_ascii (l : list ascii) :
  String.length (string_of_list_ascii l) = List.length l.
Proof. induction l as [|c l IH]; cbn; congruence. Qed.

Lemma length_btoa (s : string) :
  String.length (Base64.btoa s) = (4 * ((String.length s + 2) / 3))%nat.
Proof.
  induction s as [|a|a b|a b c s IH] using Base64Facts.by_triples;
    try reflexivity.
  cbn [Base64.btoa String.length]. rewrite IH.
  replace (S (S (S (String.length s))) + 2)%nat
    with (1 * 3 + (String.length s + 2))%nat by lia.
  rewrite Nat.div_add_l by lia. lia.
Qed.

(** X2: the text [encode] makes of [n] bytes has [4 * ceil(n / 3)]
    characters, each one of the sixty-four of the base64 alphabet or the
    padding [=]. *)
Theorem encode_shape (bytes : list byte) :
  String.length (encode bytes) = (4 * ((List.length bytes + 2) / 3))%nat
  /\ Forall (fun c => Base64.char_sextet c <> None \/ c = Base64.pad)
       (list_ascii_of_string (encode bytes)).
Proof.
  unfold encode. split.
  - now rewrite length_btoa, length_string_of_list_ascii, length_map.
  - rewrite Base64Facts.btoa_split. apply Forall_app. split.
    + apply Forall_map.
      eapply Forall_impl; [|apply Base64Facts.body_bounded].
      intros n Hn. left. now rewrite Base64Facts.sextet_roundtrip.
    + generalize (string_of_list_ascii (map ascii_of_byte bytes)). intros s.
      destruct (Base64Facts.body_shape s) as [k [[-> _]|[[-> _]|[-> _]]]];
        repeat constructor; now right.
Qed.

Lemma strip_padding_keeps (c : ascii) (r : list ascii) :
  c <> Base64.pad -> In c r -> In c (Base64.strip_padding_rev r).
Proof.
  intros Hc Hin. unfold Base64.strip_padding_rev.
  destruct (_ =? _)%nat; [|exact Hin].
  destruct r as [|p [|q r']]; try exact Hin.
  destruct (Ascii.eqb_spec p Base64.pad) as [->|Hp]; [|exact Hin].
  destruct Hin as [E|Hin]; [congruence|].
  destruct (Ascii.eqb_spec q Base64.pad) as [->|Hq]; [|exact Hin].
  destruct Hin as [E|Hin]; [congruence|exact Hin].
Qed.

Lemma sextets_invalid (c : ascii) (l : list ascii) :
  In c l -> Base64.char_sextet c = None -> Base64.sextets l = None.
Proof.
  induction l as [|x l IH]; intros Hin Hc; [destruct Hin|].
  cbn [Base64.sextets]. destruct Hin as [->|Hin].
  - now rewrite Hc.
  - rewrite (IH Hin Hc). now destruct (Base64.char_sextet x).
Qed.

(** X3: [decode] throws on a text that holds a character which is neither
    of the base64 alphabet, nor the padding, nor white space. *)
Theorem decode_rejects_foreign_character (base64 : string) (c : ascii) :
  In c (list_ascii_of_string base64) ->
  Base64.char_sextet c = None ->
  c <> Base64.pad ->
  Base64.is_whitespace c = false ->
  decode base64 = Throw InvalidCharacterError.
Proof.
  intros Hin Hc Hpad Hws. unfold decode, Base64.atob.
  set (l := rev (Base64.strip_padding_rev
                   (rev (Base64.strip_whitespace (list_ascii_of_string base64))))).
  assert (Hl : In c l).
  { unfold l. apply -> in_rev. apply strip_padding_keeps; [exact Hpad|].
    apply -> in_rev. unfold Base64.strip_whitespace. apply filter_In.
    split; [exact Hin|now rewrite Hws]. }
  rewrite (sextets_invalid c l Hl Hc).
  now destruct (_ =? _)%nat.
Qed.

Lemma decode_rejects_foreign_character_witness :
  decode "AQ*=" = Throw InvalidCharacterError.
Proof.
  apply (decode_rejects_foreign_character "AQ*=" "*"%char).
  - cbn. tauto.
  - reflexivity.
  - discriminate.
  - reflexivity.
Defined.

Lemma Qtrunc_grid (z : Z) : Qtrunc (inject_Z z / 32768 * 32768) = z.
Proof.
  unfold Qtrunc, Qdiv, Qmult, Qinv, inject_Z. cbn.
  rewrite Z.mul_1_r. apply Z.quot_mul. discriminate.
Qed.

Lemma ToInt16_grid (z : Z) :
  -32768 <= z <= 32767 -> ToInt16 (inject_Z z / 32768 * 32768) = z.
Proof.
  intros Hz. unfold ToInt16. rewrite Qtrunc_grid.
  destruct (Z.leb_spec 32768 (z mod 65536)); lia.
Qed.

Lemma int16_of_bytes_range (lo hi : byte) :
  -32768 <= int16_of_bytes lo hi <= 32767.
Proof.
  unfold int16_of_bytes, Z_of_byte.
  pose proof (Byte.to_N_bounded lo). pose proof (Byte.to_N_bounded hi).
  destruct (Z.leb_spec 32768 (Z.of_N (Byte.to_N lo) + 256 * Z.of_N (Byte.to_N hi)));
    lia.
Qed.

Lemma int16_pairs_range (buffer : list byte) :
  Forall (fun z => -32768 <= z <= 32767) (int16_pairs buffer).
Proof.
  assert (G : forall n (b : list byte), (List.length b <= n)%nat ->
              Forall (fun z => -32768 <= z <= 32767) (int16_pairs b)).
  { induction n as [|n IH]; intros [|lo [|hi rest]] Hb; cbn in Hb;
      cbn [int16_pairs]; try constructor; try lia.
    - apply int16_of_bytes_range.
    - apply IH. lia. }
  now apply (G (List.length buffer)).
Qed.

Lemma sample_in_range (z : Z) :
  -32768 <= z <= 32767 -> (-1 <= inject_Z z / 32768 < 1)%Q.
Proof.
  intros Hz. unfold Qle, Qlt, Qdiv, Qmult, Qinv, inject_Z. cbn. lia.
Qed.

(** What [decodeAudioData] returns, read off a successful call. *)
Lemma decodeAudioData_inv (bytes : list byte) (rate : Q) (numChannels : nat)
  (buffer : AudioBuffer) :
  decodeAudioData bytes rate numChannels = Ok buffer ->
  let frames :=
    Z.to_nat (Z.of_nat (List.length bytes / 2 / numChannels) mod 4294967296) in
  Nat.even (List.length bytes) = true
  /\ (1 <= numChannels <= 32)%nat
  /\ (1 <= frames <= List.length bytes / 2 / numChannels)%nat
  /\ (8000 <= rate <= 96000)%Q
  /\ buffer
     = mkAudioBuffer numChannels frames rate
         (map (fun c =>
                 map (fun i => sample_at (int16_pairs bytes) (i * numChannels + c))
                     (seq 0 frames))
              (seq 0 numChannels)).
Proof.
  intros Hdec frames.
  unfold decodeAudioData, Int16Array_of_buffer in Hdec.
  destruct (Nat.even (List.length bytes)) eqn:Heven; [|discriminate].
  cbn [bind] in Hdec. unfold createBuffer in Hdec.
  rewrite frameCount_trunc, length_int16_pairs in Hdec. fold frames in Hdec.
  destruct ((1 <=? numChannels)%nat && (numChannels <=? 32)%nat) eqn:E1;
    [|discriminate].
  destruct (negb (frames =? 0)%nat) eqn:E2; [|discriminate].
  destruct (Qle_bool 8000 rate) eqn:E3; [|discriminate].
  destruct (Qle_bool rate 96000) eqn:E4; [|discriminate].
  cbn [andb bind numberOfChannels length sampleRate channelData] in Hdec.
  apply andb_true_iff in E1. destruct E1 as [C1 C2].
  apply Nat.leb_le in C1, C2.
  apply negb_true_iff, Nat.eqb_neq in E2.
  apply Qle_bool_iff in E3, E4.
  assert (Hle : (frames <= List.length bytes / 2 / numChannels)%nat).
  { unfold frames.
    pose proof (Z.mod_le (Z.of_nat (List.length bytes / 2 / numChannels)) 4294967296).
    revert H. generalize (List.length bytes / 2 / numChannels)%nat. intros n H.
    pose proof (Z.mod_pos_bound (Z.of_nat n) 4294967296). lia. }
  split; [reflexivity|]. split; [lia|]. split; [lia|]. split; [auto|].
  injection Hdec as <-. f_equal.
  rewrite (update_all
             (fun channel data0 =>
                fillChannel (int16_pairs bytes) numChannels
                  (inject_Z (Z.of_nat (List.length bytes / 2))
                   / inject_Z (Z.of_nat numChannels))
                  channel data0)).
  apply map_ext. intros c. unfold fillChannel.
  rewrite (fill_all (fun i => sample_at (int16_pairs bytes) (i * numChannels + c))).
  - now rewrite repeat_length.
  - rewrite repeat_length.
    pose proof (frameCount_iterations (List.length bytes / 2) numChannels). lia.
Qed.

(** X4: whenever [decodeAudioData] returns a buffer, it has the channels
    asked for and at least one frame, every channel has that many samples,
    and every sample is a finite value in [[-1, 1)]: never [NaN], never
    [1.0]. *)
Theorem decoded_samples_in_range (bytes : list byte) (rate : Q) (numChannels : nat)
  (buffer : AudioBuffer) :
  decodeAudioData bytes rate numChannels = Ok buffer ->
  numberOfChannels buffer = numChannels
  /\ List.length (channelData buffer) = numChannels
  /\ (1 <= length buffer)%nat
  /\ Forall (fun samples =>
               List.length samples = length buffer
               /\ Forall (fun x => exists q : Q, x = Num q /\ (-1 <= q < 1)%Q) samples)
       (channelData buffer).
Proof.
  intros Hdec. destruct (decodeAudioData_inv _ _ _ _ Hdec) as (_ & Hc & Hf & _ & ->).
  cbn [numberOfChannels length channelData].
  split; [reflexivity|]. split; [now rewrite length_map, length_seq|].
  split; [lia|].
  apply Forall_map, Forall_forall. intros c Hcin. apply in_seq in Hcin.
  split; [now rewrite length_map, length_seq|].
  apply Forall_map, Forall_forall. intros i Hi. apply in_seq in Hi.
  unfold sample_at.
  destruct (nth_error (int16_pairs bytes) (i * numChannels + c)) as [z|] eqn:Ez.
  - exists (inject_Z z / 32768)%Q. split; [reflexivity|].
    apply sample_in_range.
    pose proof (int16_pairs_range bytes) as Hr. rewrite Forall_forall in Hr.
    apply Hr. eapply nth_error_In; eauto.
  - exfalso. apply nth_error_None in Ez. rewrite length_int16_pairs in Ez.
    pose proof (Nat.Div0.mul_div_le (List.length bytes / 2) numChannels) as Hle.
    revert Hf Hi Hle Ez.
    generalize (Z.to_nat (Z.of_nat (List.length bytes / 2 / numChannels) mod 4294967296)).
    generalize (List.length bytes / 2 / numChannels)%nat.
    generalize (List.length bytes / 2)%nat. intros n frames len Hf Hi Hle Ez. nia.
Qed.

Lemma decoded_samples_in_range_witness :
  numberOfChannels
    (mkAudioBuffer 1 2 24000 [[Num (inject_Z (-1) / 32768); Num (inject_Z 32767 / 32768)]])
  = 1%nat
  /\ List.length
       (channelData
          (mkAudioBuffer 1 2 24000
             [[Num (inject_Z (-1) / 32768); Num (inject_Z 32767 / 32768)]])) = 1%nat
  /\ (1 <= length
             (mkAudioBuffer 1 2 24000
                [[Num (inject_Z (-1) / 32768); Num (inject_Z 32767 / 32768)]]))%nat
  /\ Forall (fun samples =>
               List.length samples = 2%nat
               /\ Forall (fun x => exists q : Q, x = Num q /\ (-1 <= q < 1)%Q) samples)
       [[Num (inject_Z (-1) / 32768); Num (inject_Z 32767 / 32768)]].
Proof.
  apply (decoded_samples_in_range [xff; xff; xff; x7f] 24000 1
           (mkAudioBuffer 1 2 24000
              [[Num (inject_Z (-1) / 32768); Num (inject_Z 32767 / 32768)]])).
  reflexivity.
Defined.

Lemma byte_of_Z_of_byte (b : byte) : byte_of_Z (Z_of_byte b) = b.
Proof.
  unfold byte_of_Z, Z_of_byte. pose proof (Byte.to_N_bounded b) as Hb.
  rewrite Z.mod_small by lia. rewrite N2Z.id, Byte.of_to_N. reflexivity.
Qed.

Lemma int16_bytes_split (l h : Z) :
  0 <= l <= 255 -> 0 <= h <= 255 ->
  int16_bytes (if 32768 <=? l + 256 * h then l + 256 * h - 65536 else l + 256 * h)
  = [byte_of_Z l; byte_of_Z h].
Proof.
  intros Hl Hh. unfold int16_bytes.
  assert (E : (if 32768 <=? l + 256 * h then l + 256 * h - 65536 else l + 256 * h)
              mod 65536 = l + 256 * h).
  { destruct (Z.leb_spec 32768 (l + 256 * h)); lia. }
  rewrite E.
  replace ((l + 256 * h) mod 256) with l by lia.
  replace ((l + 256 * h) / 256) with h by lia.
  reflexivity.
Qed.

Lemma int16_bytes_of_bytes (lo hi : byte) :
  int16_bytes (int16_of_bytes lo hi) = [lo; hi].
Proof.
  unfold int16_of_bytes. rewrite int16_bytes_split.
  - now rewrite !byte_of_Z_of_byte.
  - unfold Z_of_byte. pose proof (Byte.to_N_bounded lo). lia.
  - unfold Z_of_byte. pose proof (Byte.to_N_bounded hi). lia.
Qed.

Lemma Uint8Array_of_int16_pairs (bytes : list byte) :
  Nat.even (List.length bytes) = true ->
  Uint8Array_of_Int16Array (int16_pairs bytes) = bytes.
Proof.
  assert (G : forall n (b : list byte), (List.length b <= n)%nat ->
              Nat.even (List.length b) = true ->
              Uint8Array_of_Int16Array (int16_pairs b) = b).
  { induction n as [|n IH]; intros [|lo [|hi rest]] Hb Heven; cbn in Hb;
      try reflexivity; try lia; try discriminate.
    cbn [int16_pairs Uint8Array_of_Int16Array flat_map].
    fold (Uint8Array_of_Int16Array (int16_pairs rest)).
    rewrite int16_bytes_of_bytes, IH; [reflexivity|lia|exact Heven]. }
  now apply (G (List.length bytes)).
Qed.

(** X5: encoding what was decoded gives the wire text back: for a chunk of
    one channel that [decodeAudioData] accepts, [createBlobFromAudio] of the
    decoded samples is [encode] of the bytes. *)
Theorem encode_undoes_decode (bytes : list byte) (rate : Q) (buffer : AudioBuffer) :
  decodeAudioData bytes rate 1 = Ok buffer ->
  Z.of_nat (List.length bytes / 2) < 4294967296 ->
  exists samples : list Q,
    channelData buffer = [map Num samples]
    /\ List.length samples = (List.length bytes / 2)%nat
    /\ data (createBlobFromAudio samples) = encode bytes
    /\ mimeType (createBlobFromAudio samples) = "audio/pcm;rate=16000".
Proof.
  intros Hdec Hbig.
  destruct (decodeAudioData_inv _ _ _ _ Hdec) as (Heven & _ & _ & _ & ->).
  exists (map (fun z => inject_Z z / 32768)%Q (int16_pairs bytes)).
  cbn [channelData seq map]. rewrite Nat.div_1_r, Z.mod_small, Nat2Z.id by lia.
  split; [|split; [|split]].
  - f_equal. rewrite <- (length_int16_pairs bytes), samples_channel.
    now rewrite map_map.
  - now rewrite length_map, length_int16_pairs.
  - unfold createBlobFromAudio. cbn [data]. f_equal.
    rewrite map_map.
    rewrite (map_ext_in _ (fun z => z)).
    + rewrite map_id. now apply Uint8Array_of_int16_pairs.
    + intros z Hz. apply ToInt16_grid.
      pose proof (int16_pairs_range bytes) as Hr. rewrite Forall_forall in Hr.
      now apply Hr.
  - reflexivity.
Qed.

Lemma encode_undoes_decode_witness :
  exists samples : list Q,
    channelData
      (mkAudioBuffer 1 2 24000 [[Num (inject_Z (-1) / 32768); Num (inject_Z 32767 / 32768)]])
    = [map Num samples]
    /\ List.length samples = (List.length [xff; xff; xff; x7f] / 2)%nat
    /\ data (createBlobFromAudio samples) = encode [xff; xff; xff; x7f]
    /\ mimeType (createBlobFromAudio samples) = "audio/pcm;rate=16000".
Proof.
  apply (encode_undoes_decode [xff; xff; xff; x7f] 24000
           (mkAudioBuffer 1 2 24000
              [[Num (inject_Z (-1) / 32768); Num (inject_Z 32767 / 32768)]])).
  - reflexivity.
  - cbn. lia.
Defined.

(** X6: the values of the 16-bit grid, [z / 32768] for a 16-bit [z], come
    back from [createBlobFromAudio] and [decodeAudioData] exactly, [-1.0]
    included. *)
Theorem grid_samples_exact (zs : list Z) (rate : Q) :
  zs <> [] ->
  Forall (fun z => -32768 <= z <= 32767) zs ->
  Z.of_nat (List.length zs) < 4294967296 ->
  (8000 <= rate <= 96000)%Q ->
  decodeInboundChunk
    (data (createBlobFromAudio (map (fun z => inject_Z z / 32768)%Q zs))) rate 1
  = Ok (mkAudioBuffer 1 (List.length zs) rate
          [map Num (map (fun z => inject_Z z / 32768)%Q zs)]).
Proof.
  intros Hne Hrange Hbig Hrate.
  rewrite decode_of_encoded.
  - rewrite length_map. f_equal. f_equal. f_equal.
    rewrite !map_map. apply map_ext_in. intros z Hz.
    rewrite Forall_forall in Hrange. now rewrite ToInt16_grid by auto.
  - destruct zs; [congruence|discriminate].
  - now rewrite length_map.
  - exact Hrate.
Qed.

Lemma grid_samples_exact_witness :
  decodeInboundChunk
    (data (createBlobFromAudio (map (fun z => inject_Z z / 32768)%Q [-32768; 0; 1; 32767])))
    16000 1
  = Ok (mkAudioBuffer 1 (List.length [-32768; 0; 1; 32767]) 16000
          [map Num (map (fun z => inject_Z z / 32768)%Q [-32768; 0; 1; 32767])]).
Proof.
  apply (grid_samples_exact [-32768; 0; 1; 32767] 16000).
  - discriminate.
  - repeat constructor; lia.
  - cbn. lia.
  - split; unfold Qle; cbn; lia.
Defined.

(** ** The microphone level *)

Lemma total_bounds (dataArray : list byte) (acc : Z) :
  acc <= fold_left (fun acc val => acc + Z_of_byte val) dataArray acc
      <= acc + 255 * Z.of_nat (List.length dataArray).
Proof.
  revert acc. induction dataArray as [|b l IH]; intros acc; cbn [fold_left List.length].
  - lia.
  - specialize (IH (acc + Z_of_byte b)).
    assert (0 <= Z_of_byte b <= 255)
      by (unfold Z_of_byte; pose proof (Byte.to_N_bounded b); lia).
    lia.
Qed.

(** X7: for a frequency array that is not empty, the level handed to
    [setMicLevel] lies between [0] and [255/128], just under [2]. *)
Theorem micLevel_bounds (dataArray : list byte) :
  dataArray <> [] -> (0 <= micLevel dataArray <= 255 # 128)%Q.
Proof.
  intros Hne. unfold micLevel.
  pose proof (total_bounds dataArray 0) as Ht.
  assert (Hn : 0 < Z.of_nat (List.length dataArray))
    by (destruct dataArray; [congruence|cbn [List.length]; lia]).
  revert Ht Hn.
  generalize (fold_left (fun acc val => acc + Z_of_byte val) dataArray 0).
  generalize (Z.of_nat (List.length dataArray)).
  intros n t Ht Hn. destruct n as [|p|p]; try lia.
  unfold Qle, Qdiv, Qmult, Qinv, inject_Z. cbn. split; nia.
Qed.

Lemma micLevel_bounds_witness :
  (0 <= micLevel [xff; x00; x80; xff] <= 255 # 128)%Q.
Proof.
  apply (micLevel_bounds [xff; x00; x80; xff]). discriminate.
Defined.

(** ** The live session, further *)

Lemma scheduled_nth (clocks durations : list Q) (k : nat) (next : Q) (i : nat)
  (a : Playing) :
  nth_error (scheduled k next clocks durations) i = Some a ->
  (exists now : Q, nth_error clocks i = Some now /\ (now <= startAt a)%Q)
  /\ nth_error durations i = Some (playFor a)
  /\ source a = (k + i)%nat
  /\ forall b : Playing,
       nth_error (scheduled k next clocks durations) (S i) = Some b ->
       (startAt a + playFor a <= startAt b)%Q.
Proof.
  revert durations k next i.
  induction clocks as [|now clocks IH]; intros [|d durations] k next [|i] Hnth;
    cbn [scheduled nth_error] in *; try discriminate.
  - injection Hnth as <-. cbn [startAt playFor source].
    split; [exists now; split; [reflexivity|apply Q.le_max_r]|].
    split; [reflexivity|]. split; [lia|].
    intros b Hb. destruct clocks as [|now' clocks], durations as [|d' durations];
      cbn [scheduled nth_error] in Hb; try discriminate.
    injection Hb as <-. cbn [startAt]. apply Q.le_max_l.
  - destruct (IH _ _ _ _ Hnth) as (E1 & E2 & E3 & E4).
    split; [exact E1|]. split; [exact E2|]. split; [lia|exact E4].
Qed.

Section Session.
Context `{Types}.


(** X9: in a run of chunks without interruption, whatever the clock reads,
    no chunk starts before the reading at which it arrived, and none
    starts before the end of the one scheduled before it. *)
Theorem chunks_never_overlap (chunks : list (Q * bool * LiveServerMessage))
  (buffers : list AudioBuffer) (s : Live) (i : nat) (a : Playing) :
  Forall2 carries chunks buffers ->
  nth_error (started (playback (handle_all chunks s)))
    (List.length (started (playback s)) + i) = Some a ->
  (exists c, nth_error chunks i = Some c /\ (fst (fst c) <= startAt a)%Q)
  /\ forall b : Playing,
       nth_error (started (playback (handle_all chunks s)))
         (List.length (started (playback s)) + S i) = Some b ->
       (startAt a + playFor a <= startAt b)%Q.
Proof.
  intros Hrun Hnth. rewrite (run_scheduled _ _ _ Hrun) in *.
  rewrite nth_error_app2 in Hnth by lia.
  replace (List.length (started (playback s)) + i
           - List.length (started (playback s)))%nat with i in Hnth by lia.
  destruct (scheduled_nth _ _ _ _ _ _ Hnth) as ((now & Hnow & Hle) & _ & _ & Hnext).
  split.
  - rewrite nth_error_map in Hnow.
    destruct (nth_error chunks i) as [c|]; [|discriminate].
    exists c. split; [reflexivity|]. cbn in Hnow. now injection Hnow as <-.
  - intros b Hb. rewrite nth_error_app2 in Hb by lia.
    replace (List.length (started (playback s)) + S i
             - List.length (started (playback s)))%nat with (S i) in Hb by lia.
    now apply Hnext.
Qed.

(** X10: a [changePersonality] call that names a member of [Personality]
    makes it the personality, leaves the mode alone, shows the banner
    "Personality set to ..." and is acknowledged. *)
Theorem personality_call_accepted (now : Q) (eager : bool) (id v : string) (s : Live) :
  In v Personality_values ->
  let call := mkFunctionCall id "changePersonality" [("personality", v)] in
  let s' := fst (onmessage now eager (tool_message [call]) s) in
  currentPersonality (settings s') = v
  /\ currentMode (settings s') = currentMode (settings s)
  /\ liveActionStatus (settings s') = Some ("Personality set to " ++ v ++ ".")%string
  /\ toolResponses (settings s')
     = toolResponses (settings s) ++ [mkFunctionResponse id "changePersonality" "ok"].
Proof.
  intros Hv call s'. unfold s', call.
  rewrite onmessage_settings. cbn [tool_message toolCall onToolCall fold_left].
  unfold dispatch. cbn [fc_name fc_args fc_id arg].
  change (String.eqb "changePersonality" "changePersonality") with true.
  change (String.eqb "personality" "personality") with true. cbn iota.
  apply includes_In in Hv. rewrite Hv.
  repeat split.
Qed.

(** X11: closing the session does not stop what is playing: the status goes
    to [idle] with the sources still active, and when the last of them ends
    its listener sets the status to [listening] although the session is
    closed. *)
Theorem playback_outlives_session (h : nat) (s : Live) :
  isLive s = true ->
  audioSources (playback s) = [h] ->
  let closed := handleToggleLiveMode s in
  let after := react closed (Ends h) in
  isLive closed = false
  /\ liveStatus (playback closed) = idle
  /\ audioSources (playback closed) = [h]
  /\ stopped (playback closed) = stopped (playback s)
  /\ isLive after = false
  /\ liveStatus (playback after) = listening.
Proof.
  intros Hlive Hsrc closed after. unfold after, closed, handleToggleLiveMode.
  rewrite Hlive. cbn. rewrite Hsrc. cbn. rewrite Nat.eqb_refl. cbn.
  repeat split.
Qed.

(** X12: a message that carries both the interruption flag and a chunk:
    the sources that were active are stopped, the chunk starts at
    [max(0, now)] and is the only active source, and the status is
    [speaking]. *)
Theorem interruption_with_chunk (now : Q) (eager : bool) (m : LiveServerMessage)
  (base64 : string) (buffer : AudioBuffer) (s : Live) :
  interrupted m = true ->
  audioData m = Some base64 ->
  base64 <> "" ->
  decodeInboundChunk base64 24000 1 = Ok buffer ->
  let p := playback (fst (onmessage now eager m s)) in
  liveStatus p = speaking
  /\ audioSources p = [List.length (started (playback s))]
  /\ stopped p = stopped (playback s) ++ audioSources (playback s)
  /\ started p
     = started (playback s)
         ++ [mkPlaying (List.length (started (playback s))) (Qmax 0 now)
               (duration buffer)]
  /\ nextStartTime p = (Qmax 0 now + duration buffer)%Q.
Proof.
  intros Hi Ha Hne Hdec p. unfold p.
  rewrite onmessage_playback, Hi, Ha, (chunk_scheduled _ _ buffer) by assumption.
  destruct (onTurnComplete_schedule m (onInterrupted (playback s)))
    as (R1 & R2 & R3 & R4 & _).
  cbn [fst liveStatus audioSources stopped started nextStartTime].
  rewrite R1, R2, R3, R4. cbn. repeat split.
Qed.
End Session.


Lemma append_empty_r (s : string) : (s ++ "")%string = s.
Proof. induction s as [|c s IH]; cbn; congruence. Qed.

Lemma append_assoc (a b c : string) :
  ((a ++ b) ++ c)%string = (a ++ (b ++ c))%string.
Proof. induction a as [|x a IH]; cbn; congruence. Qed.

Lemma append_to_fragment (v : option string) (acc : string) :
  append_to v acc
  = (acc ++ match v with Some t => t | None => "" end)%string.
Proof.
  unfold append_to, truthy. destruct v as [t|]; [|now rewrite append_empty_r].
  destruct (String.eqb_spec t "") as [->|Ht]; [now rewrite append_empty_r|reflexivity].
Qed.

Section Captioning.
Context `{Types}.

Lemma handle_fragment (a : Q * bool * LiveServerMessage) (s : Live) :
  turnComplete (snd a) = false ->
  captions (handle s a)
  = mkCaptions (liveTranscript (captions s))
      (pendingTranscript (captions s)
         ++ [SetValue
               (mkTranscript
                  (append_to (inputTranscription (snd a))
                     (user (liveTranscriptRef (captions s))))
                  (append_to (outputTranscription (snd a))
                     (assistant (liveTranscriptRef (captions s)))))])
      (mkTranscript
         (append_to (inputTranscription (snd a)) (user (liveTranscriptRef (captions s))))
         (append_to (outputTranscription (snd a))
            (assistant (liveTranscriptRef (captions s))))).
Proof.
  destruct a as [[now eager] m]. cbn [snd]. intros E.
  unfold handle. rewrite onmessage_captions. unfold onTranscript. now rewrite E.
Qed.

(** X13: within a turn, the fragments of the messages are appended in the
    order of arrival, the user's to [user] and the model's to [assistant],
    however they are interleaved; and the next render shows exactly what
    has been accumulated so far. *)
Theorem captions_accumulate (msgs : list (Q * bool * LiveServerMessage)) (s : Live) :
  Forall (fun a => turnComplete (snd a) = false) msgs ->
  let c := captions (handle_all msgs s) in
  user (liveTranscriptRef c)
  = (user (liveTranscriptRef (captions s))
     ++ fold_right String.append ""
          (map (fun a => match inputTranscription (snd a) with
                         | Some t => t
                         | None => ""
                         end) msgs))%string
  /\ assistant (liveTranscriptRef c)
     = (assistant (liveTranscriptRef (captions s))
        ++ fold_right String.append ""
             (map (fun a => match outputTranscription (snd a) with
                            | Some t => t
                            | None => ""
                            end) msgs))%string
  /\ (msgs <> [] -> liveTranscript (render c) = liveTranscriptRef c).
Proof.
  intros Hmsgs c. unfold c. clear c. split; [|split].
  - revert s. induction Hmsgs as [|a l Ha _ IH]; intros s;
      cbn [handle_all fold_left map fold_right].
    + now rewrite append_empty_r.
    + fold (handle_all l (handle s a)).
      rewrite IH, (handle_fragment a s Ha). cbn [liveTranscriptRef user].
      now rewrite append_to_fragment, append_assoc.
  - revert s. induction Hmsgs as [|a l Ha _ IH]; intros s;
      cbn [handle_all fold_left map fold_right].
    + now rewrite append_empty_r.
    + fold (handle_all l (handle s a)).
      rewrite IH, (handle_fragment a s Ha). cbn [liveTranscriptRef assistant].
      now rewrite append_to_fragment, append_assoc.
  - intros Hne. destruct (exists_last Hne) as (l & a & ->).
    apply Forall_app in Hmsgs. destruct Hmsgs as [_ Ha].
    apply Forall_inv in Ha.
    unfold handle_all. rewrite fold_left_app. cbn [fold_left].
    fold (handle_all l s). rewrite (handle_fragment a _ Ha).
    now rewrite render_last.
Qed.
End Captioning.

(** *** What holds after any callbacks *)

Lemma tidy_status (v : LiveStatus) (p : Playback) : tidy p -> tidy (setLiveStatus v p).
Proof. intros T. exact T. Qed.

Lemma tidy_onInterrupted (p : Playback) : tidy p -> tidy (onInterrupted p).
Proof.
  intros (T1 & T2 & T3 & T4). unfold tidy, onInterrupted.
  cbn [started audioSources stopped].
  split; [exact T1|]. split; [constructor|]. split; [intros h []|].
  intros h Hh. apply in_app_or in Hh. destruct Hh as [Hh|Hh]; [now apply T4|].
  now apply T3.
Qed.

Lemma tidy_onTurnComplete (m : LiveServerMessage) (p : Playback) :
  tidy p -> tidy (onTurnComplete m p).
Proof.
  intros T. unfold onTurnComplete. destruct (turnComplete m); [|exact T].
  destruct (audioSources p); [|exact T].
  now apply tidy_status.
Qed.

Lemma set_add_fresh (x : nat) (l : list nat) :
  (forall h, In h l -> (h < x)%nat) -> set_add x l = l ++ [x].
Proof.
  intros Hl. unfold set_add.
  destruct (existsb (Nat.eqb x) l) eqn:E; [|reflexivity].
  apply existsb_exists in E. destruct E as (h & Hh & E).
  apply Nat.eqb_eq in E. subst h. specialize (Hl _ Hh). lia.
Qed.

Lemma tidy_onAudio (now : Q) (audio : option string) (p : Playback) :
  tidy p -> tidy (fst (onAudio now audio p)).
Proof.
  intros (T1 & T2 & T3 & T4). unfold onAudio.
  destruct (truthy audio) as [base64|]; [|exact (conj T1 (conj T2 (conj T3 T4)))].
  destruct (decodeInboundChunk base64 24000 1) as [buffer|e];
    [|exact (conj T1 (conj T2 (conj T3 T4)))].
  unfold tidy. cbn [fst started audioSources stopped].
  rewrite set_add_fresh by (intros h Hh; now apply T3).
  rewrite map_app, length_app, T1. cbn [map source List.length].
  rewrite Nat.add_1_r, seq_S. split; [reflexivity|].
  split.
  - apply NoDup_app; [exact T2|repeat constructor; intros []|].
    intros h Hh [<-|[]]. specialize (T3 _ Hh). lia.
  - split.
    + intros h Hh. apply in_app_or in Hh. destruct Hh as [Hh|[<-|[]]].
      * destruct (T3 _ Hh). split; [lia|assumption].
      * split; [lia|]. intros Hs. specialize (T4 _ Hs). lia.
    + intros h Hh. specialize (T4 _ Hh). lia.
Qed.

Lemma tidy_onended (h : nat) (p : Playback) : tidy p -> tidy (onended h p).
Proof.
  intros (T1 & T2 & T3 & T4). unfold tidy, onended, set_delete.
  cbn [started audioSources stopped].
  split; [exact T1|]. split; [now apply NoDup_filter|].
  split; [|exact T4].
  intros x Hx. apply filter_In in Hx. now apply T3.
Qed.

Section Always.
Context `{Types}.

Lemma tidy_react (e : Event) (s : Live) : tidy (playback s) -> tidy (playback (react s e)).
Proof.
  intros T. destruct e as [now eager m|h|]; cbn [react].
  - rewrite onmessage_playback.
    apply tidy_onAudio, tidy_onTurnComplete.
    destruct (interrupted m); [now apply tidy_onInterrupted|exact T].
  - now apply tidy_onended.
  - unfold handleToggleLiveMode. destruct (isLive s); exact T.
Qed.

(** X14: after any sequence of messages, [ended] listeners and toggles from
    the mounted component, the sources are numbered in the order they were
    started, the active set holds distinct sources that were started and
    were not stopped, and only started sources were stopped: a source that
    an interruption stopped is never active again. *)
Theorem sources_stay_tidy (events : list Event) :
  tidy (playback (react_all events initial)).
Proof.
  assert (G : forall s, tidy (playback s) -> tidy (playback (react_all events s))).
  { induction events as [|e events IH]; intros s T; cbn [react_all fold_left].
    - exact T.
    - apply IH. now apply tidy_react. }
  apply G. unfold tidy. cbn.
  split; [reflexivity|]. split; [constructor|]. split; intros h [].
Qed.


End Always.

(** *** The session theorems at concrete sessions *)

Lemma chunks_never_overlap_witness :
  let chunks :=
    [(0%Q, true, audio_message (silence 2));
     (5%Q, true, audio_message (silence 3))] in
  let s := handleToggleLiveMode (@initial sample_types) in
  let a := mkPlaying 0 0 (inject_Z 2 / 24000) in
  (exists c, nth_error chunks 0 = Some c /\ (fst (fst c) <= startAt a)%Q)
  /\ forall b : Playing,
       nth_error (started (playback (@handle_all sample_types chunks s)))
         (List.length (started (playback s)) + 1) = Some b ->
       (startAt a + playFor a <= startAt b)%Q.
Proof.
  intros chunks s a.
  apply (@chunks_never_overlap sample_types chunks
           [mkAudioBuffer 1 2 24000 [[Num (inject_Z 0 / 32768); Num (inject_Z 0 / 32768)]];
            mkAudioBuffer 1 3 24000
              [[Num (inject_Z 0 / 32768); Num (inject_Z 0 / 32768);
                Num (inject_Z 0 / 32768)]]]
           s 0%nat a).
  - constructor; [|constructor; [|constructor]].
    + split; [reflexivity|]. exists (silence 2).
      split; [reflexivity|]. split; [discriminate|reflexivity].
    + split; [reflexivity|]. exists (silence 3).
      split; [reflexivity|]. split; [discriminate|reflexivity].
  - reflexivity.
Defined.

Lemma captions_accumulate_witness :
  let msgs :=
    [(0%Q, true, output_message "Hel"); (0%Q, true, input_message "Hi");
     (0%Q, false, output_message "lo ")] in
  let c := captions (@handle_all sample_types msgs
                       (handleToggleLiveMode (@initial sample_types))) in
  user (liveTranscriptRef c) = "Hi"
  /\ assistant (liveTranscriptRef c) = "Hello "
  /\ liveTranscript (render c) = mkTranscript "Hi" "Hello ".
Proof.
  intros msgs c.
  destruct (@captions_accumulate sample_types msgs
              (handleToggleLiveMode (@initial sample_types)))
    as (Hu & Ha & Hr).
  - repeat constructor.
  - split; [exact Hu|]. split; [exact Ha|]. apply Hr. discriminate.
Defined.

Lemma personality_call_accepted_witness :
  let s := handleToggleLiveMode (@initial sample_types) in
  let call := mkFunctionCall "call-1" "changePersonality" [("personality", "Sage")] in
  let s' := fst (@onmessage sample_types 0 true (tool_message [call]) s) in
  currentPersonality (settings s') = "Sage"
  /\ currentMode (settings s') = "Chat"
  /\ liveActionStatus (settings s') = Some "Personality set to Sage."
  /\ toolResponses (settings s') = [mkFunctionResponse "call-1" "changePersonality" "ok"].
Proof.
  apply (@personality_call_accepted sample_types 0%Q true "call-1" "Sage"
           (handleToggleLiveMode (@initial sample_types))).
  right. left. reflexivity.
Defined.

Lemma playback_outlives_session_witness :
  let s := @handle_all sample_types [(0%Q, true, audio_message (silence 2))]
             (handleToggleLiveMode (@initial sample_types)) in
  let closed := handleToggleLiveMode s in
  let after := @react sample_types closed (Ends 0) in
  isLive closed = false
  /\ liveStatus (playback closed) = idle
  /\ audioSources (playback closed) = [0%nat]
  /\ stopped (playback closed) = stopped (playback s)
  /\ isLive after = false
  /\ liveStatus (playback after) = listening.
Proof.
  intros s.
  apply (@playback_outlives_session sample_types 0%nat s); reflexivity.
Defined.


Lemma interruption_with_chunk_witness :
  let m := mkMessage true None None None false (Some (silence 2)) in
  let p := playback (fst (@onmessage sample_types 7 true m backlog_state)) in
  liveStatus p = speaking
  /\ audioSources p = [2%nat]
  /\ stopped p = [0%nat; 1%nat]
  /\ started p
     = started (playback backlog_state)
         ++ [mkPlaying 2 (Qmax 0 7) (inject_Z 2 / 24000)]
  /\ nextStartTime p = (Qmax 0 7 + inject_Z 2 / 24000)%Q.
Proof.
  apply (@interruption_with_chunk sample_types 7%Q true
           (mkMessage true None None None false (Some (silence 2))) (silence 2)
           (mkAudioBuffer 1 2 24000 [[Num (inject_Z 0 / 32768); Num (inject_Z 0 / 32768)]])
           backlog_state).
  - reflexivity.
  - reflexivity.
  - discriminate.
  - reflexivity.
Defined.

(** ** Reminders *)

Lemma toString_inj (a b : Z) : toString a = toString b -> a = b.
Proof.
  unfold toString. intros E.
  assert (N : forall z, NilZero.int_of_string (NilZero.string_of_int (Z.to_int z))
                        = Some (Z.to_int z)).
  { intros z. apply NilZero.isi; destruct z; cbn; try discriminate;
      intros G; injection G; apply Unsigned.to_uint_nonnil. }
  apply to_int_inj. apply (f_equal NilZero.int_of_string) in E.
  rewrite !N in E. now injection E.
Qed.

Lemma isDue_later (now c : Z) (r : Reminder) :
  now <= c -> isDue now r = true -> isDue c r = true.
Proof.
  unfold isDue. destruct (dueTime r); [|discriminate|];
    intros Hc Hd; apply Z.leb_le in Hd; apply Z.leb_le; lia.
Qed.

Lemma filter_other_ids (r : Reminder) (rs : list Reminder) :
  ~ In (reminder_id r) (map reminder_id rs) ->
  filter (fun x => negb (String.eqb (reminder_id x) (reminder_id r))) rs = rs.
Proof.
  induction rs as [|x rs IH]; intros Hn; cbn [filter]; [reflexivity|].
  cbn [map In] in Hn.
  destruct (String.eqb_spec (reminder_id x) (reminder_id r)) as [E|E].
  - exfalso. apply Hn. now left.
  - cbn [negb]. f_equal. apply IH. tauto.
Qed.

Lemma checkReminders_incl (now : Z) (n : Notices) (r : Reminder) :
  In r (reminders (checkReminders now n)) -> In r (reminders n).
Proof.
  unfold checkReminders. destruct (filter (isDue now) (reminders n)); [tauto|].
  cbn [reminders]. intros Hr. now apply filter_In in Hr.
Qed.

Lemma minutes_incl (clocks : list Z) (n : Notices) (r : Reminder) :
  In r (reminders (minutes clocks n)) -> In r (reminders n).
Proof.
  revert n. induction clocks as [|c clocks IH]; intros n; cbn [minutes fold_left];
    [tauto|].
  intros Hr. apply (checkReminders_incl c). now apply IH.
Qed.

(** X16: reminders with distinct ids that are all due are shown one per
    check, in the order of the list: after [k] checks the first [k] have
    been shown and removed, and the rest wait for the checks to come. *)
Theorem due_reminders_fire_one_per_check (now : Z) (clocks : list Z)
  (rs : list Reminder) (t : option Toast) :
  NoDup (map reminder_id rs) ->
  Forall (fun r => isDue now r = true) rs ->
  Forall (fun c => now <= c) clocks ->
  fired clocks (mkNotices rs t)
  = map (fun r => ("Reminder: " ++ interpolate (reminder_text r))%string)
      (firstn (List.length clocks) rs)
  /\ reminders (minutes clocks (mkNotices rs t)) = skipn (List.length clocks) rs.
Proof.
  intros Hids Hdue Hclocks. revert rs t Hids Hdue.
  induction Hclocks as [|c clocks Hc _ IH]; intros rs t Hids Hdue.
  - split; reflexivity.
  - change (minutes (c :: clocks) (mkNotices rs t))
      with (minutes clocks (checkReminders c (mkNotices rs t))).
    cbn [fired List.length]. destruct rs as [|r rs].
    + change (checkReminders c (mkNotices [] t)) with (mkNotices [] t).
      cbn [reminders filter]. rewrite firstn_nil, skipn_nil.
      destruct (IH [] t Hids Hdue) as [E1 E2].
      rewrite firstn_nil in E1. rewrite skipn_nil in E2. now split.
    + apply Forall_cons_iff in Hdue. destruct Hdue as [Hr Hrs].
      cbn [map] in Hids. apply NoDup_cons_iff in Hids. destruct Hids as [Hn Hids].
      assert (E : checkReminders c (mkNotices (r :: rs) t)
                  = mkNotices rs
                      (Some (mkToast ("Reminder: " ++ interpolate (reminder_text r))%string
                               info))).
      { unfold checkReminders. cbn [reminders filter].
        rewrite (isDue_later now c r Hc Hr), String.eqb_refl. cbn [negb].
        now rewrite (filter_other_ids r rs Hn). }
      rewrite E. cbn [reminders filter]. rewrite (isDue_later now c r Hc Hr).
      cbn [firstn skipn map].
      destruct (IH rs (Some (mkToast ("Reminder: " ++ interpolate (reminder_text r))%string
                               info)) Hids Hrs) as [E1 E2].
      split; [now rewrite E1|exact E2].
Qed.

Lemma due_reminders_fire_one_per_check_witness :
  let rs := [mkReminder "1" (Some "tea") (Ms 10); mkReminder "2" (Some "call") (Ms 20);
             mkReminder "3" None (Ms 5)] in
  fired [60; 120] (mkNotices rs None) = ["Reminder: tea"; "Reminder: call"]
  /\ reminders (minutes [60; 120] (mkNotices rs None)) = [mkReminder "3" None (Ms 5)].
Proof.
  intros rs.
  apply (due_reminders_fire_one_per_check 30 [60; 120] rs None).
  - repeat constructor; cbn; intuition discriminate.
  - repeat constructor.
  - repeat constructor; lia.
Defined.

Lemma length_filter_one_id (r : Reminder) (rs : list Reminder) :
  NoDup (map reminder_id rs) -> In r rs ->
  S (List.length
       (filter (fun x => negb (String.eqb (reminder_id x) (reminder_id r))) rs))
  = List.length rs.
Proof.
  induction rs as [|x rs IH]; intros Hids Hin; [destruct Hin|].
  cbn [map] in Hids. apply NoDup_cons_iff in Hids. destruct Hids as [Hn Hids].
  cbn [filter List.length].
  destruct (String.eqb_spec (reminder_id x) (reminder_id r)) as [E|E]; cbn [negb].
  - rewrite <- E. now rewrite (filter_other_ids x rs Hn).
  - cbn [List.length]. f_equal. apply IH; [exact Hids|].
    destruct Hin as [->|Hin]; [congruence|exact Hin].
Qed.

Lemma NoDup_ids_filter (f : Reminder -> bool) (rs : list Reminder) :
  NoDup (map reminder_id rs) -> NoDup (map reminder_id (filter f rs)).
Proof.
  induction rs as [|x rs IH]; intros Hids; [exact Hids|].
  cbn [map] in Hids. apply NoDup_cons_iff in Hids. destruct Hids as [Hn Hids].
  cbn [filter]. destruct (f x); [|now apply IH].
  cbn [map]. constructor; [|now apply IH].
  intros Hin. apply Hn. apply in_map_iff in Hin. destruct Hin as (y & Ey & Hy).
  apply in_map_iff. exists y. split; [exact Ey|]. now apply filter_In in Hy.
Qed.

(** X17: when the ids are distinct, a check removes a reminder only when it
    shows one: over any readings of the clock, the reminders shown and the
    reminders left add up to the reminders there were, and every one left
    was there. *)
Theorem shown_or_kept (clocks : list Z) (n : Notices) :
  NoDup (map reminder_id (reminders n)) ->
  (List.length (fired clocks n) + List.length (reminders (minutes clocks n))
   = List.length (reminders n))%nat
  /\ forall r, In r (reminders (minutes clocks n)) -> In r (reminders n).
Proof.
  intros Hids. split; [|intros r; apply minutes_incl].
  revert n Hids. induction clocks as [|c clocks IH]; intros n Hids;
    cbn [fired minutes fold_left]; [reflexivity|].
  fold (minutes clocks (checkReminders c n)).
  assert (Hn : NoDup (map reminder_id (reminders (checkReminders c n)))).
  { unfold checkReminders. destruct (filter (isDue c) (reminders n)); [exact Hids|].
    cbn [reminders]. now apply NoDup_ids_filter. }
  specialize (IH _ Hn).
  destruct (filter (isDue c) (reminders n)) as [|r due] eqn:E.
  - rewrite IH. unfold checkReminders. now rewrite E.
  - cbn [List.length]. rewrite Nat.add_succ_l, IH.
    unfold checkReminders. rewrite E. cbn [reminders].
    apply length_filter_one_id; [exact Hids|].
    assert (Hin : In r (filter (isDue c) (reminders n))) by (rewrite E; now left).
    now apply filter_In in Hin.
Qed.

Lemma shown_or_kept_witness :
  let n := mkNotices [mkReminder "1" (Some "tea") (Ms 100);
                      mkReminder "2" (Some "call") NaNms;
                      mkReminder "3" None (Ms 50)] None in
  let clocks := [60; 120; 180] in
  (List.length (fired clocks n) + List.length (reminders (minutes clocks n))
   = List.length (reminders n))%nat
  /\ forall r, In r (reminders (minutes clocks n)) -> In r (reminders n).
Proof.
  intros n clocks. apply (shown_or_kept clocks n).
  repeat constructor; cbn; intuition discriminate.
Defined.

(** X18: two reminders added at the same reading of [Date.now()] get the
    same id; when the check shows the first, the filter on its id removes
    the second too, without showing it: from then on no reminder of that id
    is in the list. *)
Theorem same_reading_shared_fate (now c t1 : Z) (text1 text2 : option string)
  (due2 : epoch) (rs : list Reminder) (t : option Toast) :
  Forall (fun r => isDue c r = false) rs ->
  t1 <= c ->
  let n := addReminder now text2 due2 (addReminder now text1 (Ms t1) (mkNotices rs t)) in
  In (mkReminder (toString now) text2 due2) (reminders n)
  /\ toast (checkReminders c n)
     = Some (mkToast ("Reminder: " ++ interpolate text1)%string info)
  /\ forall (clocks : list Z) (r : Reminder),
       In r (reminders (minutes clocks (checkReminders c n))) ->
       reminder_id r <> toString now.
Proof.
  intros Hrs Ht1 n.
  assert (Hf : filter (isDue c) rs = []).
  { clear n. induction Hrs as [|r rs Hr _ IH]; [reflexivity|].
    cbn [filter]. now rewrite Hr. }
  assert (Hd : isDue c (mkReminder (toString now) text1 (Ms t1)) = true)
    by (apply Z.leb_le; exact Ht1).
  assert (E : checkReminders c n
              = mkNotices
                  (filter (fun r => negb (String.eqb (reminder_id r) (toString now)))
                     (reminders n))
                  (Some (mkToast ("Reminder: " ++ interpolate text1)%string info))).
  { unfold checkReminders, n, addReminder. cbn [reminders].
    rewrite <- app_assoc, filter_app, Hf. cbn [app filter]. rewrite Hd.
    reflexivity. }
  split; [|split].
  - unfold n, addReminder. cbn [reminders]. apply in_or_app. right. now left.
  - now rewrite E.
  - intros clocks r Hr. apply minutes_incl in Hr. rewrite E in Hr.
    cbn [reminders] in Hr. apply filter_In in Hr. destruct Hr as [_ Hr].
    intros Eid. rewrite Eid, String.eqb_refl in Hr. discriminate.
Qed.

Lemma same_reading_shared_fate_witness :
  let n := addReminder 1700000000000 (Some "call") (Ms 90)
             (addReminder 1700000000000 (Some "tea") (Ms 10) (mkNotices [] None)) in
  In (mkReminder (toString 1700000000000) (Some "call") (Ms 90)) (reminders n)
  /\ toast (checkReminders 60 n) = Some (mkToast "Reminder: tea" info)
  /\ forall (clocks : list Z) (r : Reminder),
       In r (reminders (minutes clocks (checkReminders 60 n))) ->
       reminder_id r <> toString 1700000000000.
Proof.
  apply (same_reading_shared_fate 1700000000000 60 10 (Some "tea") (Some "call")
           (Ms 90) [] None).
  - constructor.
  - lia.
Defined.

Lemma onFunctionCalls_from (getTime : option string -> epoch)
  (calls : list (Z * FunctionCall)) (n : Notices) (acc : list FunctionResponsePart) :
  reminders (fst (fold_left (onFunctionCall getTime) calls (n, acc)))
  = reminders n ++ map (reminderOf getTime) (filter isSetReminder calls)
  /\ snd (fold_left (onFunctionCall getTime) calls (n, acc))
     = acc ++ map (fun _ => mkFunctionResponsePart "setReminder" "OK, reminder is set.")
                (filter isSetReminder calls)
  /\ toast (fst (fold_left (onFunctionCall getTime) calls (n, acc)))
     = match filter isSetReminder calls with
       | [] => toast n
       | _ :: _ => Some (mkToast "Reminder set!" success)
       end.
Proof.
  revert n acc. induction calls as [|[now call] calls IH]; intros n acc.
  - cbn [fold_left filter map fst snd]. now rewrite !app_nil_r.
  - assert (E : onFunctionCall getTime (n, acc) (now, call)
                = if String.eqb (fc_name call) "setReminder"
                  then (addReminder now (arg (fc_args call) "reminderText")
                          (getTime (arg (fc_args call) "dateTime")) n,
                        acc ++ [mkFunctionResponsePart "setReminder"
                                  "OK, reminder is set."])
                  else (n, acc)) by reflexivity.
    assert (F : isSetReminder (now, call) = String.eqb (fc_name call) "setReminder")
      by reflexivity.
    assert (R : String.eqb (fc_name call) "setReminder" = true ->
                reminderOf getTime (now, call)
                = mkReminder (toString now) (arg (fc_args call) "reminderText")
                    (getTime (arg (fc_args call) "dateTime"))) by reflexivity.
    cbn [fold_left filter]. rewrite E, F.
    destruct (String.eqb (fc_name call) "setReminder").
    + destruct (IH (addReminder now (arg (fc_args call) "reminderText")
                      (getTime (arg (fc_args call) "dateTime")) n)
                  (acc ++ [mkFunctionResponsePart "setReminder" "OK, reminder is set."]))
        as (E1 & E2 & E3).
      rewrite E1, E2, E3. cbn [map]. rewrite (R eq_refl).
      unfold addReminder. cbn [reminders toast].
      rewrite <- !app_assoc. cbn [app].
      split; [reflexivity|]. split; [reflexivity|].
      now destruct (filter isSetReminder calls).
    + apply IH.
Qed.

Lemma functionCallLoop_readable (getTime : option string -> epoch)
  (calls rest : list (Z * InboundCall)) (n : Notices)
  (acc : list FunctionResponsePart) :
  Forall readable calls ->
  functionCallLoop getTime (calls ++ rest) n acc
  = functionCallLoop getTime rest
      (fst (fold_left (onFunctionCall getTime) (map timed calls) (n, acc)))
      (snd (fold_left (onFunctionCall getTime) (map timed calls) (n, acc))).
Proof.
  intros Hcalls. revert n acc.
  induction Hcalls as [|[now call] calls Hc _ IH]; intros n acc;
    cbn [app map fold_left functionCallLoop]; [reflexivity|].
  unfold readable in Hc. cbn [snd] in Hc.
  assert (E : onFunctionCall getTime (n, acc) (timed (now, call))
              = if String.eqb (call_name call) "setReminder"
                then (addReminder now
                        (arg (match call_args call with Some a => a | None => [] end)
                           "reminderText")
                        (getTime
                           (arg (match call_args call with Some a => a | None => [] end)
                              "dateTime")) n,
                      acc ++ [mkFunctionResponsePart "setReminder"
                                "OK, reminder is set."])
                else (n, acc)) by reflexivity.
  rewrite E.
  destruct (String.eqb_spec (call_name call) "setReminder") as [Ename|_]; [|apply IH].
  destruct (call_args call) as [args|]; [apply IH|].
  now destruct (Hc Ename).
Qed.

(** X19: the loop over the function calls of a response, as long as every
    [setReminder] call carries its [args]: it adds one reminder for each of
    them, in the order of the calls, with the text and the date of the call
    whatever they are, and collects the answer ["OK, reminder is set."] for
    each; calls of other names are neither handled nor answered, and the
    answer ["Failed to parse date."] is never given.  A [setReminder] call
    without [args] ends the loop with a [TypeError]: the reminders of the
    calls before it have been added, and no answer is sent. *)
Theorem function_calls_answered (getTime : option string -> epoch)
  (before : list (Z * InboundCall)) (n : Notices) :
  Forall readable before ->
  let sets := filter isSetReminder (map timed before) in
  let done := functionCallLoop getTime before n [] in
  snd done
  = Ok (map (fun _ => mkFunctionResponsePart "setReminder" "OK, reminder is set.") sets)
  /\ reminders (fst done) = reminders n ++ map (reminderOf getTime) sets
  /\ toast (fst done)
     = match sets with
       | [] => toast n
       | _ :: _ => Some (mkToast "Reminder set!" success)
       end
  /\ forall (c : Z * InboundCall) (after : list (Z * InboundCall)),
       call_name (snd c) = "setReminder" ->
       call_args (snd c) = None ->
       snd (functionCallLoop getTime (before ++ c :: after) n []) = Throw TypeError
       /\ reminders (fst (functionCallLoop getTime (before ++ c :: after) n []))
          = reminders n ++ map (reminderOf getTime) sets.
Proof.
  intros Hbefore sets done.
  destruct (onFunctionCalls_from getTime (map timed before) n []) as (E1 & E2 & E3).
  assert (Edone : done
                  = (fst (fold_left (onFunctionCall getTime) (map timed before) (n, [])),
                     Ok (snd (fold_left (onFunctionCall getTime) (map timed before)
                                (n, []))))).
  { unfold done. rewrite <- (app_nil_r before) at 1.
    rewrite functionCallLoop_readable by assumption. reflexivity. }
  rewrite Edone. cbn [fst snd].
  split; [now rewrite E2|]. split; [exact E1|]. split; [exact E3|].
  intros [now call] after Hname Hargs. cbn [snd] in Hname, Hargs.
  rewrite functionCallLoop_readable by assumption.
  cbn [functionCallLoop]. rewrite Hname, Hargs.
  change (String.eqb "setReminder" "setReminder") with true. cbn iota. cbn [fst snd].
  split; [reflexivity|exact E1].
Qed.

Lemma function_calls_answered_witness :
  let getTime := fun _ : option string => Ms 100 in
  let first := (5, mkInboundCall "c1" "setReminder"
                     (Some [("reminderText", "tea"); ("dateTime", "later")])) in
  let other := (5, mkInboundCall "c2" "lookUp" None) in
  let bare := (6, mkInboundCall "c3" "setReminder" None) in
  let n := mkNotices [] None in
  snd (functionCallLoop getTime [first; other] n [])
  = Ok [mkFunctionResponsePart "setReminder" "OK, reminder is set."]
  /\ reminders (fst (functionCallLoop getTime [first; other] n []))
     = [mkReminder (toString 5) (Some "tea") (Ms 100)]
  /\ snd (functionCallLoop getTime ([first; other] ++ bare :: [first]) n [])
     = Throw TypeError
  /\ reminders (fst (functionCallLoop getTime ([first; other] ++ bare :: [first]) n []))
     = [mkReminder (toString 5) (Some "tea") (Ms 100)].
Proof.
  intros getTime first other bare n.
  destruct (function_calls_answered getTime [first; other] n)
    as (Hsent & Hadded & _ & Hbare).
  - constructor; [intros _; discriminate|].
    constructor; [intros E; discriminate E|constructor].
  - split; [exact Hsent|]. split; [exact Hadded|].
    exact (Hbare bare [first] eq_refl eq_refl).
Defined.

Lemma never_due_stays (r : Reminder) (clocks : list Z) (n : Notices) :
  dueTime r = NaNms ->
  In r (reminders n) ->
  (forall x, In x (reminders n) -> reminder_id x = reminder_id r -> x = r) ->
  In r (reminders (minutes clocks n)).
Proof.
  intros Hr. revert n. induction clocks as [|c clocks IH]; intros n Hin Hid;
    cbn [minutes fold_left]; [exact Hin|].
  fold (minutes clocks (checkReminders c n)). apply IH.
  - unfold checkReminders.
    destruct (filter (isDue c) (reminders n)) as [|x due] eqn:E; [exact Hin|].
    cbn [reminders]. apply filter_In. split; [exact Hin|].
    assert (Hx : In x (filter (isDue c) (reminders n))) by (rewrite E; now left).
    apply filter_In in Hx. destruct Hx as [Hx Hdue].
    destruct (String.eqb_spec (reminder_id r) (reminder_id x)) as [Eid|]; [|reflexivity].
    symmetry in Eid. rewrite (Hid x Hx Eid) in Hdue.
    unfold isDue in Hdue. rewrite Hr in Hdue. discriminate.
  - intros x Hx. apply Hid. now apply (checkReminders_incl c).
Qed.

Lemma never_due_unchanged (r : Reminder) (t : option Toast) (clocks : list Z) :
  dueTime r = NaNms ->
  minutes clocks (mkNotices [r] t) = mkNotices [r] t.
Proof.
  intros Hr. induction clocks as [|c clocks IH]; [reflexivity|].
  cbn [minutes fold_left]. fold (minutes clocks (checkReminders c (mkNotices [r] t))).
  unfold checkReminders. cbn [reminders filter]. unfold isDue. rewrite Hr. exact IH.
Qed.

(** X20: a [setReminder] call whose date does not parse is answered
    ["OK, reminder is set."] all the same.  As long as the page is not
    reloaded, its reminder is due at no reading of the clock and, when no
    other has its id, is never removed: it is in the list after any number
    of checks.  Across a reload the [NaN] comes back as [null]: the
    reminder is then due at every reading of the clock from [0] on, and
    when it is the only one the first check after the reload shows it. *)
Theorem unparsable_date_fires_after_reload (getTime : option string -> epoch)
  (now : Z) (call : InboundCall) (args : list (string * string)) (n : Notices) :
  call_name call = "setReminder" ->
  call_args call = Some args ->
  getTime (arg args "dateTime") = NaNms ->
  Forall (fun r => reminder_id r <> toString now) (reminders n) ->
  let r := mkReminder (toString now) (arg args "reminderText") NaNms in
  let n' := fst (functionCallLoop getTime [(now, call)] n []) in
  snd (functionCallLoop getTime [(now, call)] n [])
  = Ok [mkFunctionResponsePart "setReminder" "OK, reminder is set."]
  /\ (forall c : Z, isDue c r = false)
  /\ (forall clocks : list Z, In r (reminders (minutes clocks n')))
  /\ (forall (clocks : list Z) (c : Z),
        0 <= c ->
        In (revive r) (reminders (reload (minutes clocks n')))
        /\ isDue c (revive r) = true)
  /\ (reminders n = [] ->
      forall (clocks : list Z) (c : Z),
        0 <= c ->
        checkReminders c (reload (minutes clocks n'))
        = mkNotices []
            (Some (mkToast ("Reminder: " ++ interpolate (arg args "reminderText"))%string
                     info))).
Proof.
  intros Hname Hargs Hdate Hfresh r n'.
  assert (En : n' = addReminder now (arg args "reminderText") NaNms n).
  { unfold n'. cbn [functionCallLoop]. rewrite Hname, Hargs, Hdate. reflexivity. }
  assert (Hstays : forall clocks, In r (reminders (minutes clocks n'))).
  { intros clocks. rewrite En. apply never_due_stays.
    - reflexivity.
    - cbn [addReminder reminders]. apply in_or_app. right. now left.
    - cbn [addReminder reminders]. intros x Hx Eid. apply in_app_or in Hx.
      destruct Hx as [Hx|[<-|[]]]; [|reflexivity].
      rewrite Forall_forall in Hfresh. now destruct (Hfresh x Hx). }
  split; [|split; [|split; [|split]]].
  - cbn [functionCallLoop]. rewrite Hname, Hargs. reflexivity.
  - reflexivity.
  - exact Hstays.
  - intros clocks c Hc. split.
    + unfold reload. cbn [reminders]. apply in_map. apply Hstays.
    + apply Z.leb_le. exact Hc.
  - intros Hempty clocks c Hc. rewrite En. unfold addReminder. rewrite Hempty.
    cbn [app]. fold r. rewrite (never_due_unchanged r) by reflexivity.
    unfold reload, checkReminders. cbn [reminders map filter].
    assert (Hd : isDue c (revive r) = true) by (apply Z.leb_le; exact Hc).
    rewrite Hd. cbn [revive r reminder_id reminder_text].
    now rewrite String.eqb_refl.
Qed.

Lemma unparsable_date_fires_after_reload_witness :
  let getTime := fun _ : option string => NaNms in
  let args := [("reminderText", "tea"); ("dateTime", "soon")] in
  let call := mkInboundCall "c1" "setReminder" (Some args) in
  let r := mkReminder (toString 5) (Some "tea") NaNms in
  let n' := fst (functionCallLoop getTime [(5, call)] (mkNotices [] None) []) in
  snd (functionCallLoop getTime [(5, call)] (mkNotices [] None) [])
  = Ok [mkFunctionResponsePart "setReminder" "OK, reminder is set."]
  /\ (forall c : Z, isDue c r = false)
  /\ In r (reminders (minutes [60; 120] n'))
  /\ In (revive r) (reminders (reload (minutes [60; 120] n')))
  /\ checkReminders 180 (reload (minutes [60; 120] n'))
     = mkNotices [] (Some (mkToast "Reminder: tea" info)).
Proof.
  intros getTime args call r n'.
  destruct (unparsable_date_fires_after_reload getTime 5 call args (mkNotices [] None))
    as (Hsent & Hnever & Hstays & Hback & Hshown).
  - reflexivity.
  - reflexivity.
  - reflexivity.
  - constructor.
  - split; [exact Hsent|]. split; [exact Hnever|]. split; [apply Hstays|].
    split; [apply (Hback [60; 120] 180); lia|].
    apply (Hshown eq_refl [60; 120] 180). lia.
Defined.

Lemma fired_app (a b : list Z) (n : Notices) :
  fired (a ++ b) n = fired a n ++ fired b (minutes a n).
Proof.
  revert n. induction a as [|c a IH]; intros n; cbn [app fired minutes fold_left];
    [reflexivity|].
  fold (minutes a (checkReminders c n)).
  destruct (filter (isDue c) (reminders n)); cbn [app]; now rewrite IH.
Qed.

Lemma not_yet_due (r : Reminder) (t : option Toast) (early : list Z) :
  Forall (fun c => isDue c r = false) early ->
  fired early (mkNotices [r] t) = []
  /\ minutes early (mkNotices [r] t) = mkNotices [r] t.
Proof.
  induction 1 as [|c early Hc _ IH]; [split; reflexivity|].
  cbn [fired minutes fold_left]. fold (minutes early (checkReminders c (mkNotices [r] t))).
  unfold checkReminders. cbn [reminders filter]. rewrite Hc. exact IH.
Qed.

(** X21: a [setReminder] call with a date that parses, handled when there
    is no other reminder: the checks before the date show nothing and keep
    the reminder, and the first check at or after the date shows
    ["Reminder: "] with its text and removes it. *)
Theorem reminder_fires_when_due (getTime : option string -> epoch) (now d c : Z)
  (call : FunctionCall) (t : option Toast) (early : list Z) :
  fc_name call = "setReminder" ->
  getTime (arg (fc_args call) "dateTime") = Ms d ->
  Forall (fun e => e < d) early ->
  d <= c ->
  let n := fst (onFunctionCalls getTime [(now, call)] (mkNotices [] t)) in
  fired early n = []
  /\ reminders (minutes early n) = [reminderOf getTime (now, call)]
  /\ fired (early ++ [c]) n
     = [("Reminder: " ++ interpolate (arg (fc_args call) "reminderText"))%string]
  /\ reminders (minutes (early ++ [c]) n) = [].
Proof.
  intros Hname Hdate Hearly Hc n.
  set (r := mkReminder (toString now) (arg (fc_args call) "reminderText") (Ms d)).
  assert (En : n = mkNotices [r] (Some (mkToast "Reminder set!" success))).
  { unfold n, onFunctionCalls. cbn [fold_left]. unfold onFunctionCall.
    rewrite Hname, Hdate. reflexivity. }
  assert (Er : reminderOf getTime (now, call) = r).
  { unfold reminderOf. cbn [fst snd]. now rewrite Hdate. }
  assert (Hnot : Forall (fun e => isDue e r = false) early).
  { eapply Forall_impl; [|exact Hearly]. intros e He. apply Z.leb_gt. exact He. }
  destruct (not_yet_due r (Some (mkToast "Reminder set!" success)) early Hnot)
    as [F M].
  assert (Hd : isDue c r = true) by (apply Z.leb_le; exact Hc).
  rewrite En, Er. split; [exact F|]. split; [now rewrite M|].
  rewrite fired_app, F, M. unfold minutes at 1. rewrite fold_left_app.
  fold (minutes early (mkNotices [r] (Some (mkToast "Reminder set!" success)))).
  rewrite M. cbn [fired fold_left app]. unfold checkReminders.
  cbn [reminders filter]. rewrite Hd. cbn [reminder_text r reminder_id].
  rewrite String.eqb_refl. split; reflexivity.
Qed.

Lemma reminder_fires_when_due_witness :
  let getTime := fun _ : option string => Ms 100 in
  let call := mkFunctionCall "c1" "setReminder"
                [("reminderText", "tea"); ("dateTime", "1970-01-01T00:00:00.100Z")] in
  let n := fst (onFunctionCalls getTime [(5, call)] (mkNotices [] None)) in
  fired [40; 80] n = []
  /\ reminders (minutes [40; 80] n) = [reminderOf getTime (5, call)]
  /\ fired ([40; 80] ++ [120]) n = ["Reminder: tea"]
  /\ reminders (minutes ([40; 80] ++ [120]) n) = [].
Proof.
  intros getTime call.
  apply (reminder_fires_when_due getTime 5 100 120 call None [40; 80]).
  - reflexivity.
  - reflexivity.
  - repeat constructor.
  - lia.
Defined.

(** ** The chat history *)

Lemma sameUnits_refl (a : JSString) : sameUnits a a = true.
Proof.
  induction a as [|x a IH]; [reflexivity|].
  cbn [sameUnits]. now rewrite N.eqb_refl, IH.
Qed.

Lemma endsWith_append (a suffix : JSString) : endsWith (a ++ suffix) suffix = true.
Proof.
  unfold endsWith. rewrite length_app.
  replace (List.length a + List.length suffix - List.length suffix)%nat
    with (List.length a + 0)%nat by lia.
  rewrite skipn_app, Nat.add_0_r, skipn_all.
  replace (List.length a - List.length a)%nat with 0%nat by lia.
  cbn [skipn app]. rewrite sameUnits_refl, andb_true_r. apply Nat.leb_le. lia.
Qed.

Lemma defaultSummary_stale (messages : list ChatMessage) :
  curated (defaultSummary messages) = false
  /\ isEmpty (defaultSummary messages) = false.
Proof.
  unfold curated, defaultSummary. rewrite endsWith_append, andb_false_r.
  split; [reflexivity|].
  destruct (toJSString _); reflexivity.
Qed.

Lemma chatSummary_cases (existingChat : option ChatHistory) (messages : list ChatMessage) :
  chatSummary existingChat messages
  = match existingChat with
    | Some chat => if curated (summary chat) then summary chat
                   else defaultSummary messages
    | None => defaultSummary messages
    end.
Proof.
  destruct (defaultSummary_stale messages) as [_ E].
  unfold chatSummary. fold (defaultSummary messages). rewrite E.
  destruct existingChat as [chat|]; [|reflexivity].
  fold (curated (summary chat)). reflexivity.
Qed.

Lemma saveCurrentChat_upsert (now : Z) (messages : list ChatMessage) (id : string)
  (personality mode : string) (history prev : list ChatHistory) :
  messages <> [] -> id <> "" ->
  saveCurrentChat now messages (Some id) personality mode history prev
  = upsert (mkChatHistory id messages now (chatSummary (findChat id history) messages)
              personality mode) prev.
Proof.
  intros Hm Hid. unfold saveCurrentChat, truthy.
  destruct messages as [|m messages]; [congruence|].
  destruct (String.eqb_spec id "") as [|_]; [congruence|].
  cbn [chat_id].
  set (item := mkChatHistory id _ _ _ _ _).
  assert (Ei : chat_id item = id) by reflexivity. clearbody item.
  induction prev as [|h rest IH]; cbn [findIndex upsert app]; [reflexivity|].
  rewrite Ei. destruct (String.eqb (chat_id h) id); [reflexivity|].
  destruct (findIndex id rest) as [i|]; cbn [option_map array_set] in *;
    now rewrite IH.
Qed.

Lemma findChat_upsert (item : ChatHistory) (history : list ChatHistory) :
  findChat (chat_id item) (upsert item history) = Some item.
Proof.
  unfold findChat. induction history as [|h rest IH]; cbn [upsert find].
  - now rewrite String.eqb_refl.
  - destruct (String.eqb (chat_id h) (chat_id item)) eqn:E; cbn [find].
    + now rewrite String.eqb_refl.
    + now rewrite E.
Qed.

Lemma findChat_upsert_other (id : string) (item : ChatHistory)
  (history : list ChatHistory) :
  id <> chat_id item ->
  findChat id (upsert item history) = findChat id history.
Proof.
  intros Hid. unfold findChat.
  assert (Ei : String.eqb (chat_id item) id = false)
    by (apply String.eqb_neq; congruence).
  induction history as [|h rest IH]; cbn [upsert find].
  - now rewrite Ei.
  - destruct (String.eqb_spec (chat_id h) (chat_id item)) as [E|E]; cbn [find].
    + rewrite Ei. rewrite E. now rewrite Ei.
    + now rewrite IH.
Qed.

Lemma upsert_twice (a b : ChatHistory) (history : list ChatHistory) :
  chat_id a = chat_id b ->
  upsert b (upsert a history) = upsert b history.
Proof.
  intros E. induction history as [|h rest IH]; cbn [upsert].
  - now rewrite E, String.eqb_refl.
  - rewrite E. destruct (String.eqb (chat_id h) (chat_id b)) eqn:F; cbn [upsert].
    + now rewrite E, String.eqb_refl.
    + rewrite F. f_equal. exact IH.
Qed.

Lemma ids_upsert (item : ChatHistory) (history : list ChatHistory) :
  map chat_id (upsert item history)
  = if existsb (fun h => String.eqb (chat_id h) (chat_id item)) history
    then map chat_id history
    else map chat_id history ++ [chat_id item].
Proof.
  induction history as [|h rest IH]; cbn [upsert existsb map app]; [reflexivity|].
  destruct (String.eqb_spec (chat_id h) (chat_id item)) as [E|E]; cbn [orb map].
  - now rewrite E.
  - rewrite IH. now destruct (existsb _ rest).
Qed.

(** X22: a chat that was saved loads back: after [saveCurrentChat],
    whatever the history was, [handleLoadChat] with the id of the chat sets
    the messages, the personality and the mode that were saved. *)
Theorem saved_chat_loads_back (now : Z) (messages : list ChatMessage) (id : string)
  (personality mode : string) (history prev : list ChatHistory) (c : Conversation) :
  messages <> [] ->
  id <> "" ->
  handleLoadChat id None
    (saveCurrentChat now messages (Some id) personality mode history prev) c
  = mkConversation messages (Some id) personality mode.
Proof.
  intros Hm Hid. rewrite saveCurrentChat_upsert by assumption.
  unfold handleLoadChat.
  set (item := mkChatHistory id _ _ _ _ _).
  assert (F : findChat id (upsert item prev) = Some item)
    by apply (findChat_upsert item prev).
  now rewrite F.
Qed.

Lemma saved_chat_loads_back_witness :
  let messages := [mkChatMessage "1" User (js "hello there") 1;
                   mkChatMessage "2" Assistant (js "hi") 2] in
  let old := mkChatHistory "7" [] 0 (js "Old talk") "Sage" "Chat" in
  handleLoadChat "7" None
    (saveCurrentChat 9 messages (Some "7") "Nihara" "Chat" [old] [old])
    (mkConversation [] None "Sage" "Chat")
  = mkConversation messages (Some "7") "Nihara" "Chat".
Proof.
  intros messages old.
  apply (saved_chat_loads_back 9 messages "7" "Nihara" "Chat" [old] [old]
           (mkConversation [] None "Sage" "Chat")); discriminate.
Defined.

(** X23: [saveCurrentChat] touches one chat only: a chat of another id is
    found as before, the history keeps its length or grows by one, and ids
    that were distinct stay distinct. *)
Theorem save_leaves_others (now : Z) (messages : list ChatMessage)
  (currentChatId : option string) (personality mode : string)
  (history prev : list ChatHistory) :
  let saved := saveCurrentChat now messages currentChatId personality mode history prev in
  (forall id, currentChatId <> Some id -> findChat id saved = findChat id prev)
  /\ (List.length prev <= List.length saved <= S (List.length prev))%nat
  /\ (NoDup (map chat_id prev) -> NoDup (map chat_id saved)).
Proof.
  intros saved.
  destruct messages as [|m messages].
  { unfold saved, saveCurrentChat. repeat split; auto. }
  destruct currentChatId as [cid|];
    [|unfold saved, saveCurrentChat; repeat split; auto].
  destruct (String.eqb_spec cid "") as [->|Hcid].
  { unfold saved, saveCurrentChat. repeat split; auto. }
  unfold saved. rewrite saveCurrentChat_upsert by (assumption || discriminate).
  set (item := mkChatHistory cid _ _ _ _ _).
  assert (Hids := ids_upsert item prev).
  split; [|split].
  - intros id Hid. apply findChat_upsert_other. cbn. congruence.
  - rewrite <- (length_map chat_id (upsert item prev)), Hids.
    destruct (existsb _ prev); rewrite ?length_app, length_map; cbn; lia.
  - intros Hnd. rewrite Hids.
    destruct (existsb (fun h => String.eqb (chat_id h) (chat_id item)) prev) eqn:E;
      [exact Hnd|].
    apply NoDup_app; [exact Hnd|repeat constructor; intros []|].
    intros x Hx [<-|[]]. apply in_map_iff in Hx. destruct Hx as (h & Eh & Hh).
    assert (F : existsb (fun h => String.eqb (chat_id h) (chat_id item)) prev = true).
    { apply existsb_exists. exists h. split; [exact Hh|]. now apply String.eqb_eq. }
    congruence.
Qed.

(** X24: saving the same conversation a second time changes only the time:
    the history is the one that a single save at the later reading leaves,
    so the effect that saves the chat can run again without adding a chat
    or losing a summary. *)
Theorem saving_again_changes_only_the_time (now1 now2 : Z) (c : Conversation)
  (history : list ChatHistory) :
  apply_op (apply_op history (Saves now1 c)) (Saves now2 c)
  = apply_op history (Saves now2 c).
Proof.
  destruct c as [messages cid personality mode]. cbn [apply_op conv_messages
    conv_chatId conv_personality conv_mode].
  destruct messages as [|m messages]; [reflexivity|].
  destruct cid as [id|]; [|reflexivity].
  destruct (String.eqb_spec id "") as [->|Hid]; [reflexivity|].
  rewrite !saveCurrentChat_upsert by (assumption || discriminate).
  set (msgs := m :: messages).
  set (a := mkChatHistory id msgs now1 (chatSummary (findChat id history) msgs)
              personality mode).
  assert (F : findChat id (upsert a history) = Some a)
    by apply (findChat_upsert a history).
  rewrite F, upsert_twice by reflexivity. f_equal. f_equal.
  rewrite (chatSummary_cases (Some a)). cbn [summary a].
  rewrite chatSummary_cases.
  destruct (findChat id history) as [chat|].
  - destruct (curated (summary chat)) eqn:E; [now rewrite E|].
    now destruct (defaultSummary_stale msgs) as [-> _].
  - now destruct (defaultSummary_stale msgs) as [-> _].
Qed.

Lemma findChat_id (id : string) (history : list ChatHistory) (chat : ChatHistory) :
  findChat id history = Some chat -> chat_id chat = id.
Proof.
  intros E. apply find_some in E. destruct E as [_ E]. now apply String.eqb_eq.
Qed.

Lemma findChat_map (id : string) (f : ChatHistory -> ChatHistory)
  (history : list ChatHistory) :
  (forall h, chat_id (f h) = chat_id h) ->
  findChat id (map f history) = option_map f (findChat id history).
Proof.
  intros Hf. unfold findChat. induction history as [|h rest IH]; cbn [map find];
    [reflexivity|].
  rewrite Hf. destruct (String.eqb (chat_id h) id); [reflexivity|exact IH].
Qed.

Lemma summary_kept (id : string) (chat : ChatHistory) (op : HistoryOp)
  (history : list ChatHistory) :
  findChat id history = Some chat ->
  curated (summary chat) = true ->
  exists chat', findChat id (apply_op history op) = Some chat'
                /\ summary chat' = summary chat.
Proof.
  intros Hfind Hcur. pose proof (findChat_id _ _ _ Hfind) as Hidc.
  destruct op as [now [messages cid personality mode]
                 |newSummary [messages cid personality mode]];
    cbn [apply_op conv_messages conv_chatId conv_personality conv_mode].
  - destruct messages as [|m messages]; [now exists chat|].
    destruct cid as [cid|]; [|now exists chat].
    destruct (String.eqb_spec cid "") as [->|Hcid]; [now exists chat|].
    rewrite saveCurrentChat_upsert by (assumption || discriminate).
    destruct (String.eqb_spec id cid) as [<-|Hne].
    + rewrite Hfind, chatSummary_cases, Hcur.
      set (item := mkChatHistory id _ _ _ _ _).
      exists item. split; [|reflexivity].
      apply (findChat_upsert item history).
    + exists chat. split; [|reflexivity].
      rewrite findChat_upsert_other; [exact Hfind|exact Hne].
  - unfold updateCurrentChatSummary, truthy.
    destruct cid as [cid|]; [|now exists chat].
    destruct (String.eqb_spec cid "") as [->|Hcid]; [now exists chat|].
    destruct (List.length messages <? 2)%nat; [now exists chat|].
    destruct (String.eqb_spec id cid) as [<-|Hne].
    + rewrite Hfind. unfold curated in Hcur. apply andb_prop in Hcur.
      destruct Hcur as [C1 C2]. apply negb_true_iff in C1, C2.
      rewrite C1, C2. cbn [orb]. now exists chat.
    + match goal with
      | |- context [if ?b then _ else _] => destruct b
      end; [|now exists chat].
      rewrite findChat_map by (intros h; now destruct (String.eqb (chat_id h) cid)).
      rewrite Hfind. cbn [option_map]. rewrite Hidc.
      destruct (String.eqb_spec id cid) as [|_]; [contradiction|].
      now exists chat.
Qed.

(** X25: a summary that is not empty and does not end in ["..."] stays:
    whatever conversations are saved and summarised afterwards, with this
    id or another, the chat found under the id has that summary. *)
Theorem summary_sticks (id : string) (chat : ChatHistory) (ops : list HistoryOp)
  (history : list ChatHistory) :
  findChat id history = Some chat ->
  curated (summary chat) = true ->
  exists chat', findChat id (fold_left apply_op ops history) = Some chat'
                /\ summary chat' = summary chat.
Proof.
  revert chat history. induction ops as [|op ops IH]; intros chat history Hfind Hcur;
    cbn [fold_left].
  - now exists chat.
  - destruct (summary_kept id chat op history Hfind Hcur) as (chat1 & F1 & S1).
    destruct (IH chat1 (apply_op history op) F1) as (chat' & F & S').
    + now rewrite S1.
    + exists chat'. split; [exact F|congruence].
Qed.

Lemma summary_sticks_witness :
  let old := mkChatHistory "7" [] 0 (js "Holiday plans") "Sage" "Chat" in
  let c := mkConversation [mkChatMessage "1" User (js "hello there") 1;
                           mkChatMessage "2" Assistant (js "hi") 2]
             (Some "7") "Nihara" "Chat" in
  exists chat',
    findChat "7" (fold_left apply_op [Saves 9 c; Summarises (js "Greetings") c; Saves 10 c]
                    [old]) = Some chat'
    /\ summary chat' = (js "Holiday plans").
Proof.
  intros old c.
  apply (summary_sticks "7" old [Saves 9 c; Summarises (js "Greetings") c; Saves 10 c] [old]);
    reflexivity.
Defined.

(** X26: a chat saved for the first time gets the first forty code units
    of the first message of the user followed by ["..."] as its summary
    (["undefined..."] when the user has sent none, never ["New Chat"]).
    That summary counts as a default: the next [updateCurrentChatSummary] of
    a conversation of two messages or more replaces it by the answer of
    [summarizeChat].  What the save after that does depends on the history
    its callback read: when that is the history the update left, the
    answer is kept if it is not empty and does not end in ["..."]; when
    that is the history from before the update, the default is put back
    and the answer is lost. *)
Theorem first_summary_replaced (now now' : Z) (newSummary : JSString)
  (messages : list ChatMessage) (id personality mode : string)
  (history prev : list ChatHistory) :
  id <> "" ->
  (2 <= List.length messages)%nat ->
  findChat id history = None ->
  let h1 := saveCurrentChat now messages (Some id) personality mode history prev in
  let h2 := updateCurrentChatSummary newSummary messages (Some id) h1 h1 in
  (exists chat, findChat id h1 = Some chat
                /\ summary chat = defaultSummary messages
                /\ summary chat <> js "New Chat")
  /\ (exists chat, findChat id h2 = Some chat
                   /\ summary chat = newSummary
                   /\ chat_messages chat = messages)
  /\ (exists chat,
        findChat id (saveCurrentChat now' messages (Some id) personality mode h2 h2)
        = Some chat
        /\ summary chat = if curated newSummary then newSummary
                          else defaultSummary messages)
  /\ (exists chat,
        findChat id (saveCurrentChat now' messages (Some id) personality mode h1 h2)
        = Some chat
        /\ summary chat = defaultSummary messages).
Proof.
  intros Hid Hlen Hnone h1 h2.
  assert (Hm : messages <> []) by (destruct messages; [cbn in Hlen; lia|discriminate]).
  set (a := mkChatHistory id messages now (defaultSummary messages) personality mode).
  assert (E1 : h1 = upsert a prev).
  { unfold h1. rewrite saveCurrentChat_upsert by assumption.
    now rewrite Hnone, chatSummary_cases. }
  assert (F1 : findChat id h1 = Some a).
  { rewrite E1. apply (findChat_upsert a prev). }
  destruct (defaultSummary_stale messages) as [D1 D2].
  set (f := fun h => if String.eqb (chat_id h) id
                     then mkChatHistory (chat_id h) (chat_messages h) (chat_timestamp h)
                            newSummary (chat_personality h) (chat_mode h)
                     else h).
  assert (E2 : h2 = map f h1).
  { unfold h2, updateCurrentChatSummary, truthy.
    destruct (String.eqb_spec id "") as [|_]; [contradiction|].
    destruct (Nat.ltb_spec (List.length messages) 2) as [|_]; [lia|].
    rewrite F1. cbn [summary a]. unfold curated in D1. rewrite D2 in D1.
    cbn [negb andb] in D1. apply negb_false_iff in D1. rewrite D1. reflexivity. }
  assert (F2 : findChat id h2
               = Some (mkChatHistory id messages now newSummary personality mode)).
  { rewrite E2, findChat_map by (intros h; unfold f; now destruct (String.eqb (chat_id h) id)).
    rewrite F1. cbn [option_map]. unfold f. cbn [chat_id a]. now rewrite String.eqb_refl. }
  split; [|split; [|split]].
  - exists a. split; [exact F1|]. split; [reflexivity|].
    cbn [summary a]. intros E. rewrite E in D1. discriminate.
  - eexists. split; [exact F2|]. split; reflexivity.
  - rewrite saveCurrentChat_upsert by assumption.
    rewrite F2, chatSummary_cases. cbn [summary].
    eexists. split.
    + match goal with
      | |- findChat id (upsert ?item ?h) = _ => apply (findChat_upsert item h)
      end.
    + reflexivity.
  - rewrite saveCurrentChat_upsert by assumption.
    rewrite F1, chatSummary_cases. cbn [summary a]. rewrite D1.
    eexists. split.
    + match goal with
      | |- findChat id (upsert ?item ?h) = _ => apply (findChat_upsert item h)
      end.
    + reflexivity.
Qed.

Lemma first_summary_replaced_witness :
  let messages := [mkChatMessage "1" User (js "hello there") 1;
                   mkChatMessage "2" Assistant (js "hi") 2] in
  let h1 := saveCurrentChat 9 messages (Some "7") "Nihara" "Chat" [] [] in
  let h2 := updateCurrentChatSummary (js "Greetings") messages (Some "7") h1 h1 in
  (exists chat, findChat "7" h1 = Some chat
                /\ summary chat = js "hello there..."
                /\ summary chat <> js "New Chat")
  /\ (exists chat, findChat "7" h2 = Some chat
                   /\ summary chat = js "Greetings"
                   /\ chat_messages chat = messages)
  /\ (exists chat,
        findChat "7" (saveCurrentChat 10 messages (Some "7") "Nihara" "Chat" h2 h2)
        = Some chat
        /\ summary chat = js "Greetings")
  /\ (exists chat,
        findChat "7" (saveCurrentChat 10 messages (Some "7") "Nihara" "Chat" h1 h2)
        = Some chat
        /\ summary chat = js "hello there...").
Proof.
  intros messages.
  apply (first_summary_replaced 9 10 (js "Greetings") messages "7" "Nihara" "Chat" [] []).
  - discriminate.
  - cbn. lia.
  - reflexivity.
Defined.

Lemma save_leaves_others_witness :
  let old := mkChatHistory "3" [] 0 (js "Old talk") "Sage" "Chat" in
  let messages := [mkChatMessage "1" User (js "hello there") 1] in
  let saved := saveCurrentChat 9 messages (Some "7") "Nihara" "Chat" [old] [old] in
  findChat "3" saved = Some old
  /\ List.length saved = 2%nat
  /\ NoDup (map chat_id saved).
Proof.
  intros old messages saved.
  destruct (save_leaves_others 9 messages (Some "7") "Nihara" "Chat" [old] [old])
    as (Hother & _ & Hids).
  split; [apply (Hother "3"); discriminate|].
  split; [reflexivity|].
  apply Hids. repeat constructor. intros [].
Defined.
